(** * banque: one bank account, four ways to run its ATMs

    Shallow embedding of [tp1/banque/banque.c]: the worker [atm], the
    strategies that run it in line, in forked processes and in threads, the
    option parser and the driver [main], with the properties of their runs.

    Integers are the C types of an LP64 Linux target: [long] and
    [unsigned long] are 64 bits wide, [int] is 32 bits wide.  They are
    represented by [Z] and every operation writes its wrap-around out. *)

From Equations Require Import Equations.
From Stdlib Require Import ZArith List Lia Bool Ascii String Permutation.
Import ListNotations.

Local Open Scope Z_scope.

(** ** Machine integers *)

Module MachineInt.

Definition LONG_MIN : Z := - 2 ^ 63.
Definition LONG_MAX : Z := 2 ^ 63 - 1.
Definition INT_MIN : Z := - 2 ^ 31.
Definition INT_MAX : Z := 2 ^ 31 - 1.

(** The values a [long] can hold. *)
Definition is_long (z : Z) : Prop := LONG_MIN <= z <= LONG_MAX.

(** The values an [int] can hold. *)
Definition is_int (z : Z) : Prop := INT_MIN <= z <= INT_MAX.

(** Reduction of an integer to the [long] that has the same low 64 bits. *)
Definition wrap_long (z : Z) : Z := (z + 2 ^ 63) mod 2 ^ 64 - 2 ^ 63.

(** Reduction of an integer to the [unsigned long] with the same low 64 bits;
    also the conversion of a [long] to [unsigned long]. *)
Definition wrap_ulong (z : Z) : Z := z mod 2 ^ 64.

(** Reduction of an integer to the [int] that has the same low 32 bits. *)
Definition wrap_int (z : Z) : Z := (z + 2 ^ 31) mod 2 ^ 32 - 2 ^ 31.

Definition add_long (a b : Z) : Z := wrap_long (a + b).
Definition mul_long (a b : Z) : Z := wrap_long (a * b).

End MachineInt.
Export MachineInt.

(** ** The worker's loop

    [for (i = 0; i < vars.repeat; i++) op->account->balance += op->amount;]
    with [unsigned long i] and [long vars.repeat]: the comparison converts
    [vars.repeat] to [unsigned long].  The loop is entered at counter [i] and
    balance [bal]; it returns the counter and the balance at its exit. *)

Equations? atm_loop (repeat amount : Z) (i bal : Z) : Z * Z
  by wf (Z.to_nat (wrap_ulong repeat - i)) lt :=
  atm_loop repeat amount i bal with Z_lt_dec i (wrap_ulong repeat) := {
    | left _ => atm_loop repeat amount (wrap_ulong (i + 1)) (add_long bal amount)
    | right _ => (i, bal) }.
Proof.
  unfold wrap_ulong in *.
  assert (Hr : 0 <= repeat mod 2 ^ 64 < 2 ^ 64) by (apply Z.mod_pos_bound; lia).
  assert (Hi : 0 <= (i + 1) mod 2 ^ 64 < 2 ^ 64) by (apply Z.mod_pos_bound; lia).
  destruct (Z_lt_dec i 0) as [Hneg | Hpos].
  - lia.
  - rewrite (Z.mod_small (i + 1)) by lia. lia.
Qed.

(** ** Data model *)

(** [struct account]: one [volatile long]. *)
Record account := { balance : Z }.

(** The account objects of the program: there is one, [global_account].
    A [struct account *] is [None] for [NULL] or the address of that object. *)
Inductive account_addr := addr_global_account.

(** [struct operation]. *)
Module operation.
Record t := { account : option account_addr; amount : Z; name : option string }.
End operation.

(** The strategies a [spawn_method] function pointer can designate. *)
Inductive spawn_method :=
| fn_spawn_serial | fn_spawn_fork | fn_spawn_pthread | fn_spawn_pth.

(** [struct opts]. *)
Module opts.
Record t := { amount : Z; repeat : Z; lib : spawn_method }.
End opts.

Definition DEFAULT_REPEAT : Z := 10000000.
Definition DEFAULT_AMOUNT : Z := 100000000.
Definition EXIT_FAILURE : Z := 1.

(** The static table [ops], sentinel included. *)
Definition ops : list operation.t :=
  [ {| operation.account := Some addr_global_account; operation.amount := 6;
       operation.name := Some "Montreal"%string |};
    {| operation.account := Some addr_global_account; operation.amount := -4;
       operation.name := Some "Paris"%string |};
    {| operation.account := Some addr_global_account; operation.amount := 7;
       operation.name := Some "Johannesburg"%string |};
    {| operation.account := Some addr_global_account; operation.amount := -3;
       operation.name := Some "Bangalore"%string |};
    {| operation.account := None; operation.amount := 0; operation.name := None |} ].

(** The static initialiser of [vars]. *)
Definition default_vars : opts.t :=
  {| opts.amount := DEFAULT_AMOUNT; opts.repeat := DEFAULT_REPEAT;
     opts.lib := fn_spawn_serial |}.

(** ** Processes

    What a process writes on its standard output, one value per [printf]:
    the line of [atm] and the three lines of [main]. *)
Inductive line :=
| ATM_line (name : string) (bal : Z) (pid tid : Z)
| Start_balance_line (v : Z)
| End_balance_line (v : Z)
| Expected_line (v : Z).

(** The calls a process makes to create execution units and to wait for
    them, with what they returned. *)
Inductive call :=
| Call_fork (ret : Z)
| Call_wait
| Call_pthread_create (ret : Z)
| Call_pthread_join (i : Z)
| Call_pth_spawn (i : Z)
| Call_pth_join (i : Z).

(** The memory of one process (its copy of the globals), its identity and
    what it has written and called so far, oldest first. *)
Record proc := {
  vars : opts.t;
  global_account : account;
  pid : Z;
  stdout : list line;
  stderr : list string;
  calls : list call }.

Definition set_vars (v : opts.t) (p : proc) : proc :=
  {| vars := v; global_account := global_account p; pid := pid p;
     stdout := stdout p; stderr := stderr p; calls := calls p |}.

Definition set_balance (b : Z) (p : proc) : proc :=
  {| vars := vars p; global_account := {| balance := b |}; pid := pid p;
     stdout := stdout p; stderr := stderr p; calls := calls p |}.

Definition put_stdout (l : line) (p : proc) : proc :=
  {| vars := vars p; global_account := global_account p; pid := pid p;
     stdout := stdout p ++ [l]; stderr := stderr p; calls := calls p |}.

Definition put_stderr (l : list string) (p : proc) : proc :=
  {| vars := vars p; global_account := global_account p; pid := pid p;
     stdout := stdout p; stderr := stderr p ++ l; calls := calls p |}.

Definition log_call (c : call) (p : proc) : proc :=
  {| vars := vars p; global_account := global_account p; pid := pid p;
     stdout := stdout p; stderr := stderr p; calls := calls p ++ [c] |}.

(** The process image at the entry of [main]: globals as statically
    initialised, nothing written yet. *)
Definition initial_proc (self : Z) : proc :=
  {| vars := default_vars; global_account := {| balance := 0 |}; pid := self;
     stdout := []; stderr := []; calls := [] |}.

(** The child of [fork]: the same memory, unflushed output included (there
    is none when the strategies fork), under a new process id. *)
Definition child_of (p : proc) (child : Z) : proc :=
  {| vars := vars p; global_account := global_account p; pid := child;
     stdout := stdout p; stderr := stderr p; calls := [] |}.

(** What the operating system decides: the process id [fork] hands out at
    its k-th call in a process ([None]: the call fails and returns -1), the
    thread id [pthread_create] hands out for the k-th thread ([None]: the
    call fails), and which thread gets the processor at each instant. *)
Inductive sched_event := Run_main | Run_thread (k : nat).

Record os := {
  fork_ret : nat -> option positive;
  pthread_create_ret : nat -> option positive;
  schedule : list sched_event;
  pth_dispatch : list nat }.

(** How a computation of a process ends: it returns a value, the process
    exits with a status, or the behaviour is undefined (a null or
    out-of-bounds access, an indeterminate thread handle). *)
Inductive outcome (A : Type) :=
| Ret (a : A)
| Exited (status : Z)
| Fault.
Arguments Ret {A} a.
Arguments Exited {A} status.
Arguments Fault {A}.

(** A computation started in one process ends in one process, or in
    several when it forks: the children come first, the caller last. *)
Definition M (A : Type) : Type := proc -> list (outcome A * proc).

Definition ret {A} (a : A) : M A := fun p => [(Ret a, p)].

(** The rest [k] of a computation, in a process where its first part has
    ended: it runs where that part returned, not where it exited. *)
Definition resume {A B} (k : A -> M B) (r : outcome A * proc)
  : list (outcome B * proc) :=
  match fst r with
  | Ret a => k a (snd r)
  | Exited s => [(Exited s, snd r)]
  | Fault => [(Fault, snd r)]
  end.

Definition bind {A B} (c : M A) (k : A -> M B) : M B :=
  fun p => flat_map (resume k) (c p).

Notation "x <- c ;; k" := (bind c (fun x => k))
  (at level 61, c at next level, right associativity).
Notation "c ;; k" := (bind c (fun _ => k))
  (at level 61, right associativity).

Definition fault {A} : M A := fun p => [(Fault, p)].
Definition exit {A} (status : Z) : M A := fun p => [(Exited status, p)].
Definition get {A} (f : proc -> A) : M A := fun p => [(Ret (f p), p)].
Definition modify (f : proc -> proc) : M unit := fun p => [(Ret tt, f p)].
Definition printf (l : line) : M unit := modify (put_stdout l).
Definition getpid : M Z := get pid.

(** [gettid] in a process that has one thread: the thread id of the main
    thread is the process id. *)
Definition gettid : M Z := get pid.

Definition count_forks (p : proc) : nat :=
  List.length (filter (fun c => match c with Call_fork _ => true | _ => false end)
                      (calls p)).

(** [fork()]: 0 in the child, the child's id in the parent, or -1 in the
    parent when no process could be created. *)
Definition fork (w : os) : M Z :=
  fun p =>
    match fork_ret w (count_forks p) with
    | Some c => [(Ret 0, child_of p (Z.pos c));
                 (Ret (Z.pos c), log_call (Call_fork (Z.pos c)) p)]
    | None => [(Ret (-1), log_call (Call_fork (-1)) p)]
    end.

(** [while (wait(NULL) != -1) {}]: the caller is blocked until each of its
    children has exited; its memory is untouched. *)
Definition wait_children : M unit := modify (log_call Call_wait).

(** ** [nr_ops]

    A [struct operation *] is [None] for [NULL], or the entries from the
    one pointed to up to the end of the array.  Reading past the end of the
    array is undefined: the result is [None].  The counter [nr] is an [int]. *)
Fixpoint nr_ops_loop (p : list operation.t) (nr : Z) : option Z :=
  match p with
  | [] => None
  | op :: p' =>
      match operation.name op with
      | None => Some nr
      | Some _ => nr_ops_loop p' (wrap_int (nr + 1))
      end
  end.

Definition nr_ops (p : option (list operation.t)) : option Z :=
  match p with
  | None => Some 0
  | Some tbl => nr_ops_loop tbl 0
  end.

(** ** The C library's [atol]

    [atol(s)] is [strtol(s, NULL, 10)]: white space is skipped, an optional
    sign is read, then the longest run of decimal digits; no digit at all
    gives 0 and nothing reports it.  A value a [long] cannot hold is clamped,
    as glibc does. *)
Definition isspace (c : ascii) : bool :=
  let n := Z.of_nat (nat_of_ascii c) in
  (n =? 32) || ((9 <=? n) && (n <=? 13)).

Definition digit_value (c : ascii) : option Z :=
  let n := Z.of_nat (nat_of_ascii c) in
  if (48 <=? n) && (n <=? 57) then Some (n - 48) else None.

Fixpoint skip_spaces (s : string) : string :=
  match s with
  | String c s' => if isspace c then skip_spaces s' else s
  | EmptyString => s
  end.

Fixpoint read_digits (s : string) (acc : Z) : Z :=
  match s with
  | String c s' =>
      match digit_value c with
      | Some d => read_digits s' (10 * acc + d)
      | None => acc
      end
  | EmptyString => acc
  end.

Definition clamp_long (z : Z) : Z := Z.max LONG_MIN (Z.min LONG_MAX z).

Definition atol (s : string) : Z :=
  match skip_spaces s with
  | String "-" s' => clamp_long (- read_digits s' 0)
  | String "+" s' => clamp_long (read_digits s' 0)
  | s' => clamp_long (read_digits s' 0)
  end.

(** ** Loops over the table *)

(** Whether the body of a loop went on to its end or executed [return]. *)
Inductive flow := Next | Return.

Fixpoint for_each (indices : list Z) (body : Z -> M flow) : M flow :=
  match indices with
  | [] => ret Next
  | i :: rest =>
      f <- body i ;;
      match f with
      | Next => for_each rest body
      | Return => ret Return
      end
  end.

(** The values [i] takes in [for (i = 0; i < max; i++)], for [int]s. *)
Definition int_range (max : Z) : list Z :=
  map Z.of_nat (seq 0 (Z.to_nat max)).

Definition for_int (max : Z) (body : Z -> M flow) : M flow :=
  for_each (int_range max) body.

Definition lift_option {A} (o : option A) : M A :=
  match o with
  | Some a => ret a
  | None => fault
  end.

(** A loop that carries a local variable along. *)
Fixpoint for_fold {A} (indices : list Z) (body : Z -> A -> M A) (a : A) : M A :=
  match indices with
  | [] => ret a
  | i :: rest => a' <- body i a ;; for_fold rest body a'
  end.

(** ** Threads of one process

    A thread that runs [atm] shares the memory of its process with the
    others.  [balance += amount] on the [volatile] balance is a load, an
    addition and a store, and the thread can lose the processor between
    them: a thread is about to test its counter (and load the balance when
    the test holds), or about to store the sum it computed from the balance
    it loaded, or about to print, or has returned. *)
Inductive thread_pc :=
| At_test (i : Z)
| At_store (i tmp : Z)
| At_print
| Finished.

Record thread := { t_op : operation.t; t_tid : Z; t_pc : thread_pc }.

Definition set_pc (pc : thread_pc) (t : thread) : thread :=
  {| t_op := t_op t; t_tid := t_tid t; t_pc := pc |}.

(** One step of a thread on the memory [p] of its process; [None] when the
    step dereferences [NULL]. *)
Definition thread_step (t : thread) (p : proc) : option (thread * proc) :=
  let op := t_op t in
  match t_pc t with
  | At_test i =>
      if i <? wrap_ulong (opts.repeat (vars p))
      then match operation.account op with
           | Some addr_global_account =>
               Some (set_pc (At_store i (balance (global_account p))) t, p)
           | None => None
           end
      else Some (set_pc At_print t, p)
  | At_store i tmp =>
      Some (set_pc (At_test (wrap_ulong (i + 1))) t,
            set_balance (add_long tmp (operation.amount op)) p)
  | At_print =>
      match operation.account op, operation.name op with
      | Some addr_global_account, Some n =>
          Some (set_pc Finished t,
                put_stdout (ATM_line n (balance (global_account p)) (pid p) (t_tid t)) p)
      | _, _ => None
      end
  | Finished => Some (t, p)
  end.

(** A thread that keeps the processor until [atm] returns. *)
Definition thread_finish (t : thread) (p : proc) : option (thread * proc) :=
  let op := t_op t in
  let bound := wrap_ulong (opts.repeat (vars p)) in
  match t_pc t with
  | Finished => Some (t, p)
  | pc =>
      let i0 := match pc with
                | At_test i => i
                | At_store i _ => wrap_ulong (i + 1)
                | _ => bound
                end in
      let b0 := match pc with
                | At_store _ tmp => add_long tmp (operation.amount op)
                | _ => balance (global_account p)
                end in
      match operation.account op, operation.name op with
      | Some addr_global_account, Some n =>
          let b := snd (atm_loop (opts.repeat (vars p)) (operation.amount op) i0 b0) in
          Some (set_pc Finished t,
                put_stdout (ATM_line n b (pid p) (t_tid t)) (set_balance b p))
      | _, _ => None
      end
  end.

(** The main thread in [spawn_pthread]: in its first loop at index [i], in
    its second loop at index [i], or past both. *)
Inductive main_pc :=
| Creating (i : Z)
| Joining (i : Z)
| Joined.

(** The process while its threads run: its memory, the array [thread]
    ([None] where [pthread_create] failed and left the handle
    indeterminate), the main thread, and whether the behaviour has become
    undefined. *)
Record machine := {
  m_proc : proc;
  m_threads : list (option thread);
  m_main : main_pc;
  m_fault : bool }.

Definition EAGAIN : Z := 11.

(** ** The command line *)

(** What [getopt_long] returns to [parse_opts], for the option string
    ["hr:a:l:"] and the long options [help], [repeat], [amount] and [lib],
    until it returns -1: one of the four option characters, with [optarg]
    for the three options that take an argument, or ['?'] for a word of the
    command line it refuses (an option it does not know, an ambiguous
    prefix, a missing or a superfluous argument).  In that last case [diag]
    is the line it has written on [stderr] itself, such as
    [banque: invalid option -- 'x']. *)
Inductive getopt_ret :=
| Opt_h
| Opt_r (optarg : string)
| Opt_a (optarg : string)
| Opt_l (optarg : string)
| Opt_error (diag : string).

(** ** The worker and the four strategies *)

Section Strategies.

(** The contents of the static array [ops]. *)
Variable table : list operation.t.

(** [ops[i]]: defined for an index inside the array. *)
Definition ops_at (i : Z) : M operation.t :=
  if i <? 0 then fault else lift_option (nth_error table (Z.to_nat i)).

(** [atm]: the loop on the balance of the operation's account, then the
    report of the balance this worker reads.  The only account there is to
    point to is [global_account]. *)
Definition atm (op : operation.t) : M unit :=
  match operation.account op with
  | None => fault
  | Some addr_global_account =>
      r <- get (fun p => opts.repeat (vars p)) ;;
      b <- get (fun p => balance (global_account p)) ;;
      modify (set_balance (snd (atm_loop r (operation.amount op) 0 b))) ;;
      b' <- get (fun p => balance (global_account p)) ;;
      self <- getpid ;;
      thread <- gettid ;;
      match operation.name op with
      | Some n => printf (ATM_line n b' self thread)
      | None => fault
      end
  end.

Definition spawn_serial : M unit :=
  max <- lift_option (nr_ops (Some table)) ;;
  for_int max (fun i => op <- ops_at i ;; atm op ;; ret Next) ;;
  ret tt.

Definition spawn_fork (w : os) : M unit :=
  max <- lift_option (nr_ops (Some table)) ;;
  f <- for_int max (fun i =>
         r <- fork w ;;
         if r =? 0
         then op <- ops_at i ;; atm op ;; ret Return
         else ret Next) ;;
  match f with
  | Return => ret tt
  | Next => wait_children ;; ret tt
  end.

(** One step of the main thread of [spawn_pthread].  A thread it creates
    starts [atm] on [&ops[i]]; the value [pthread_create] returns is dropped.
    [pthread_join] blocks while the thread it names runs, and is undefined
    on a handle that no successful [pthread_create] has set. *)
Definition main_step (w : os) (max : Z) (m : machine) : machine :=
  if m_fault m then m else
  match m_main m with
  | Creating i =>
      if i <? max then
        match nth_error table (Z.to_nat i), pthread_create_ret w (Z.to_nat i) with
        | Some op, Some id =>
            {| m_proc := log_call (Call_pthread_create 0) (m_proc m);
               m_threads := m_threads m ++
                 [Some {| t_op := op; t_tid := Z.pos id; t_pc := At_test 0 |}];
               m_main := Creating (i + 1);
               m_fault := false |}
        | Some op, None =>
            {| m_proc := log_call (Call_pthread_create EAGAIN) (m_proc m);
               m_threads := m_threads m ++ [None];
               m_main := Creating (i + 1);
               m_fault := false |}
        | None, _ =>
            {| m_proc := m_proc m; m_threads := m_threads m;
               m_main := m_main m; m_fault := true |}
        end
      else
        {| m_proc := m_proc m; m_threads := m_threads m;
           m_main := Joining 0; m_fault := false |}
  | Joining i =>
      if i <? max then
        match nth_error (m_threads m) (Z.to_nat i) with
        | Some (Some t) =>
            match t_pc t with
            | Finished =>
                {| m_proc := log_call (Call_pthread_join i) (m_proc m);
                   m_threads := m_threads m;
                   m_main := Joining (i + 1);
                   m_fault := false |}
            | _ => m
            end
        | _ =>
            {| m_proc := m_proc m; m_threads := m_threads m;
               m_main := m_main m; m_fault := true |}
        end
      else
        {| m_proc := m_proc m; m_threads := m_threads m;
           m_main := Joined; m_fault := false |}
  | Joined => m
  end.

(** Thread [k] runs: one step with [thread_step], or to its end with
    [thread_finish].  A thread that does not exist yet, or that
    [pthread_create] did not create, never runs. *)
Definition run_thread (run : thread -> proc -> option (thread * proc))
    (k : nat) (m : machine) : machine :=
  if m_fault m then m else
  match nth_error (m_threads m) k with
  | Some (Some t) =>
      match run t (m_proc m) with
      | Some (t', p') =>
          {| m_proc := p';
             m_threads := firstn k (m_threads m) ++ Some t' :: skipn (S k) (m_threads m);
             m_main := m_main m; m_fault := false |}
      | None =>
          {| m_proc := m_proc m; m_threads := m_threads m;
             m_main := m_main m; m_fault := true |}
      end
  | _ => m
  end.

Definition sched_step (w : os) (max : Z) (m : machine) (e : sched_event) : machine :=
  match e with
  | Run_main => main_step w max m
  | Run_thread k => run_thread thread_step k m
  end.

(** Once the schedule [w] prescribes is used up, the run is completed: the
    main thread ends its first loop, every thread left runs to its end in
    turn, and the main thread ends its second loop. *)
Definition drain (w : os) (max : Z) (m : machine) : machine :=
  let m1 := Nat.iter (S (Z.to_nat max)) (main_step w max) m in
  let m2 := fold_left (fun m' k => run_thread thread_finish k m')
                      (seq 0 (List.length (m_threads m1))) m1 in
  Nat.iter (S (Z.to_nat max)) (main_step w max) m2.

Definition spawn_pthread (w : os) : M unit :=
  fun p =>
    match nr_ops (Some table) with
    | None => [(Fault, p)]
    | Some max =>
        let m0 := {| m_proc := p; m_threads := []; m_main := Creating 0;
                     m_fault := false |} in
        let m := drain w max (fold_left (sched_step w max) (schedule w) m0) in
        [(if m_fault m then Fault else Ret tt, m_proc m)]
    end.

(** [spawn_pth]: GNU Pth schedules its threads cooperatively inside the one
    kernel thread of the process.  A spawned thread runs once the main
    thread blocks in [pth_join], and keeps the processor until [atm]
    returns, since [atm] calls no function of Pth; the order in which they
    are dispatched is Pth's.  [pth_init] and [pth_spawn] are taken to
    succeed. *)
Definition pth_order (w : os) (max : Z) : list Z :=
  map Z.of_nat
      (nodup Nat.eq_dec
             (filter (fun k => Nat.ltb k (Z.to_nat max)) (pth_dispatch w)
              ++ seq 0 (Z.to_nat max))).

Definition spawn_pth (w : os) : M unit :=
  max <- lift_option (nr_ops (Some table)) ;;
  for_int max (fun i => modify (log_call (Call_pth_spawn i)) ;; ret Next) ;;
  for_each (pth_order w max) (fun k => op <- ops_at k ;; atm op ;; ret Next) ;;
  for_int max (fun i => modify (log_call (Call_pth_join i)) ;; ret Next) ;;
  ret tt.

(** ** Options and driver *)

Definition usage_text : list string :=
  [ "Usage: banque [OPTIONS] [COMMAND]";
    "Execute un programme a un emplacement fixe en memoire";
    ""; "Options:"; "";
    "--lib LIB        type de fil d'execution a utiliser [ serial | fork | pthread | pth ]";
    "--amount AMOUNT  montant de depart";
    "--repeat NR      nombre de transactions";
    "--help           ce message d'aide" ]%string.

(** [usage] does not return. *)
Definition usage {A} : M A :=
  modify (put_stderr usage_text) ;; exit EXIT_FAILURE.

Definition set_repeat (r : Z) (p : proc) : proc :=
  set_vars {| opts.amount := opts.amount (vars p); opts.repeat := r;
              opts.lib := opts.lib (vars p) |} p.

Definition set_amount (a : Z) (p : proc) : proc :=
  set_vars {| opts.amount := a; opts.repeat := opts.repeat (vars p);
              opts.lib := opts.lib (vars p) |} p.

Definition set_lib (f : spawn_method) (p : proc) : proc :=
  set_vars {| opts.amount := opts.amount (vars p); opts.repeat := opts.repeat (vars p);
              opts.lib := f |} p.

(** A call of [getopt_long] whose result is [o].  [parse_opts] never clears
    [opterr] and its option string does not start with a colon, so a call
    that returns ['?'] has first written its diagnostic on [stderr]; the
    other calls write nothing. *)
Definition getopt_long (o : getopt_ret) : M getopt_ret :=
  match o with
  | Opt_error diag => modify (put_stderr [diag]) ;; ret o
  | _ => ret o
  end.

(** The [switch] of [parse_opts], on what [getopt_long] has returned: the
    cases ['r'], ['a'], ['l'] and ['h'], and the [default] one, which is
    where ['?'] goes. *)
Definition parse_case (opt : getopt_ret) : M unit :=
  match opt with
  | Opt_r optarg => modify (set_repeat (atol optarg))
  | Opt_a optarg => modify (set_amount (atol optarg))
  | Opt_l optarg =>
      if String.eqb optarg "serial" then modify (set_lib fn_spawn_serial)
      else if String.eqb optarg "fork" then modify (set_lib fn_spawn_fork)
      else if String.eqb optarg "pthread" then modify (set_lib fn_spawn_pthread)
      else if String.eqb optarg "pth" then modify (set_lib fn_spawn_pth)
      else usage
  | Opt_h => usage
  | Opt_error _ => usage
  end.

(** [parse_opts], on what [getopt_long] returns call after call until it
    returns -1. *)
Fixpoint parse_opts (argv : list getopt_ret) : M unit :=
  match argv with
  | [] => ret tt
  | o :: rest => opt <- getopt_long o ;; parse_case opt ;; parse_opts rest
  end.

(** The call through the function pointer [vars.lib]. *)
Definition call_lib (w : os) (f : spawn_method) : M unit :=
  match f with
  | fn_spawn_serial => spawn_serial
  | fn_spawn_fork => spawn_fork w
  | fn_spawn_pthread => spawn_pthread w
  | fn_spawn_pth => spawn_pth w
  end.

(** The loop of [main] that computes [expected]. *)
Definition expected_loop (max : Z) (start : Z) : M Z :=
  for_fold (int_range max)
           (fun i expected =>
              op <- ops_at i ;;
              r <- get (fun p => opts.repeat (vars p)) ;;
              ret (add_long expected (mul_long (operation.amount op) r)))
           start.

Definition main (w : os) (argv : list getopt_ret) : M Z :=
  max <- lift_option (nr_ops (Some table)) ;;
  parse_opts argv ;;
  start <- get (fun p => opts.amount (vars p)) ;;
  modify (set_balance start) ;;
  expected <- expected_loop max start ;;
  f <- get (fun p => opts.lib (vars p)) ;;
  call_lib w f ;;
  a <- get (fun p => opts.amount (vars p)) ;;
  printf (Start_balance_line a) ;;
  b <- get (fun p => balance (global_account p)) ;;
  printf (End_balance_line b) ;;
  printf (Expected_line expected) ;;
  ret 0.

End Strategies.

(** ** Vocabulary of the properties *)

Definition has_name (op : operation.t) : bool :=
  match operation.name op with Some _ => true | None => false end.

Definition has_account (op : operation.t) : bool :=
  match operation.account op with Some _ => true | None => false end.

(** The entries of a table that precede its first entry without a name. *)
Fixpoint entries (tbl : list operation.t) : list operation.t :=
  match tbl with
  | [] => []
  | op :: tbl' => if has_name op then op :: entries tbl' else []
  end.

(** A table ends in a sentinel when one of its entries has no name. *)
Definition terminated (tbl : list operation.t) : bool :=
  existsb (fun op => negb (has_name op)) tbl.

(** A table the program can be built on: it ends in a sentinel, the
    entries before it all point to the account, and an [int] can count
    them. *)
Definition table_ok (tbl : list operation.t) : bool :=
  terminated tbl
  && forallb has_account (entries tbl)
  && (Z.of_nat (List.length (entries tbl)) <=? INT_MAX).

Definition Zsum (l : list Z) : Z := fold_right Z.add 0 l.

(** The amounts of the operations of a table. *)
Definition amounts (tbl : list operation.t) : list Z :=
  map operation.amount (entries tbl).

(** A loop over entries themselves, to compare the index loops with. *)
Fixpoint for_ops (ents : list operation.t) (body : operation.t -> M flow) : M flow :=
  match ents with
  | [] => ret Next
  | op :: rest =>
      f <- body op ;;
      match f with
      | Next => for_ops rest body
      | Return => ret Return
      end
  end.

Definition name_of (op : operation.t) : string :=
  match operation.name op with Some n => n | None => EmptyString end.

(** The process after [atm op] has run in it as its only thread. *)
Definition after_atm (op : operation.t) (p : proc) : proc :=
  let b := wrap_long (balance (global_account p)
                      + opts.repeat (vars p) * operation.amount op) in
  put_stdout (ATM_line (name_of op) b (pid p) (pid p)) (set_balance b p).

(** The process after the workers of [ents] ran in it one after the other. *)
Definition after_serial (ents : list operation.t) (p : proc) : proc :=
  fold_left (fun q op => after_atm op q) ents p.

(** The three lines of the driver, written by process [p] for the value
    [expected]. *)
Definition after_report (expected : Z) (p : proc) : proc :=
  put_stdout (Expected_line expected)
    (put_stdout (End_balance_line (balance (global_account p)))
       (put_stdout (Start_balance_line (opts.amount (vars p))) p)).

(** The end of [main], from the first [printf] on, for the value [expected]
    of its local variable. *)
Definition driver_report (expected : Z) : M Z :=
  a <- get (fun p => opts.amount (vars p)) ;;
  printf (Start_balance_line a) ;;
  b <- get (fun p => balance (global_account p)) ;;
  printf (End_balance_line b) ;;
  printf (Expected_line expected) ;;
  ret 0.

(** Options whose numbers are [long]s. *)
Definition vars_long (v : opts.t) : Prop :=
  is_long (opts.amount v) /\ is_long (opts.repeat v).

(** How a computation that does not fork ends when it is about options:
    normally, with new values in [vars], or in [usage], with the lines [d]
    on [stderr] before the text of [usage]. *)
Definition parsed (c : M unit) (p : proc) (v : opts.t) (d : list string) : Prop :=
  c p = [(Ret tt, set_vars v p)]
  \/ c p = [(Exited EXIT_FAILURE, put_stderr (d ++ usage_text) (set_vars v p))].

(** One turn of the loop of [parse_opts]: the call of [getopt_long] and
    the [switch] on its result. *)
Definition parse_step (o : getopt_ret) : M unit :=
  opt <- getopt_long o ;; parse_case opt.

(** The line [getopt_long] writes on [stderr] when its result is [o]. *)
Definition getopt_diag (o : getopt_ret) : list string :=
  match o with
  | Opt_error diag => [diag]
  | _ => []
  end.

(** What [main] adds up for [expected]: an amount times [repeat] for each
    operation. *)
Definition products (tbl : list operation.t) (r : Z) : list Z :=
  map (fun a => a * r) (amounts tbl).

(** What the k-th call of [fork] returns in the process that calls it. *)
Definition fork_value (w : os) (k : nat) : Z :=
  match fork_ret w k with
  | Some c => Z.pos c
  | None => -1
  end.

(** The calls of [fork] number [k] to [k + n - 1] of a process. *)
Definition fork_calls (w : os) (k n : nat) : list call :=
  map (fun j => Call_fork (fork_value w j)) (seq k n).

Definition log_calls (cs : list call) (p : proc) : proc :=
  {| vars := vars p; global_account := global_account p; pid := pid p;
     stdout := stdout p; stderr := stderr p; calls := calls p ++ cs |}.

(** The children that the calls of [fork] from the k-th on create out of
    process [p], one call for each of [ents], each child once its worker
    has run. *)
Fixpoint fork_children (w : os) (p : proc) (k : nat) (ents : list operation.t)
  : list proc :=
  match ents with
  | [] => []
  | op :: rest =>
      match fork_ret w k with
      | Some c => after_atm op (child_of p (Z.pos c)) :: fork_children w p (S k) rest
      | None => fork_children w p (S k) rest
      end
  end.

(** The process [p] once [spawn_fork] has returned in it as the parent. *)
Definition fork_parent (w : os) (n : nat) (p : proc) : proc :=
  log_call Call_wait (log_calls (fork_calls w 0 n) p).

(** The same process image under another process id. *)
Definition with_pid (z : Z) (p : proc) : proc :=
  {| vars := vars p; global_account := global_account p; pid := z;
     stdout := stdout p; stderr := stderr p; calls := calls p |}.

(** An operating system that creates every process and every thread it is
    asked for, and lets each thread run to its end in turn. *)
Definition calm_os : os :=
  {| fork_ret := fun k => Some (Pos.of_nat (101 + k));
     pthread_create_ret := fun k => Some (Pos.of_nat (201 + k));
     schedule := [];
     pth_dispatch := [] |}.

(** An operating system that has no process and no thread left for the
    second request it gets. *)
Definition short_os : os :=
  {| fork_ret := fun k => if Nat.eqb k 1 then None else Some (Pos.of_nat (101 + k));
     pthread_create_ret :=
       fun k => if Nat.eqb k 1 then None else Some (Pos.of_nat (201 + k));
     schedule := [];
     pth_dispatch := [] |}.

(** The names of strategies that [parse_opts] knows. *)
Definition known_lib (s : string) : bool :=
  String.eqb s "serial" || String.eqb s "fork"
  || String.eqb s "pthread" || String.eqb s "pth".

(** The options [parse_opts] accepts: a number of repetitions or a start
    balance, whatever the text of the argument, and a strategy under one
    of the names it knows. *)
Definition accepted (o : getopt_ret) : bool :=
  match o with
  | Opt_r _ | Opt_a _ => true
  | Opt_l optarg => known_lib optarg
  | Opt_h | Opt_error _ => false
  end.

(** The strategy a known name stands for. *)
Definition lib_of (s : string) : spawn_method :=
  if String.eqb s "serial" then fn_spawn_serial
  else if String.eqb s "fork" then fn_spawn_fork
  else if String.eqb s "pthread" then fn_spawn_pthread
  else fn_spawn_pth.

(** What an accepted option makes of [vars]. *)
Definition apply_option (v : opts.t) (o : getopt_ret) : opts.t :=
  match o with
  | Opt_r optarg =>
      {| opts.amount := opts.amount v; opts.repeat := atol optarg;
         opts.lib := opts.lib v |}
  | Opt_a optarg =>
      {| opts.amount := atol optarg; opts.repeat := opts.repeat v;
         opts.lib := opts.lib v |}
  | Opt_l optarg =>
      {| opts.amount := opts.amount v; opts.repeat := opts.repeat v;
         opts.lib := lib_of optarg |}
  | Opt_h | Opt_error _ => v
  end.

(** Whether a text starts, after white space and one sign at most, with a
    decimal digit: whether there is a number for [atol] to read. *)
Definition is_digit (c : ascii) : bool :=
  match digit_value c with Some _ => true | None => false end.

Definition starts_with_digit (s : string) : bool :=
  match s with
  | String c _ => is_digit c
  | EmptyString => false
  end.

Definition has_number (s : string) : bool :=
  match skip_spaces s with
  | String "-" s' => starts_with_digit s'
  | String "+" s' => starts_with_digit s'
  | s' => starts_with_digit s'
  end.

(** What the k-th call of [pthread_create] returns. *)
Definition create_value (w : os) (k : nat) : Z :=
  match pthread_create_ret w k with
  | Some _ => 0
  | None => EAGAIN
  end.

(** The calls of [pthread_create] number [k] to [k + n - 1] of a process. *)
Definition create_calls (w : os) (k n : nat) : list call :=
  map (fun j => Call_pthread_create (create_value w j)) (seq k n).

Definition is_create (c : call) : bool :=
  match c with Call_pthread_create _ => true | _ => false end.

(** A thread whose operation points to the account and has a name. *)
Definition thread_ok (s : option thread) : Prop :=
  match s with
  | Some t => has_account (t_op t) = true /\ has_name (t_op t) = true
  | None => True
  end.

(** The number of calls of [pthread_create] the main thread has made, for
    a table of [n] operations. *)
Definition created (n : nat) (m : machine) : nat :=
  match m_main m with
  | Creating i => Z.to_nat i
  | _ => n
  end.

Definition past_creation (m : machine) : Prop :=
  match m_main m with
  | Creating _ => False
  | _ => True
  end.

(** What holds of the process of [base] all along [spawn_pthread], for a
    table of [n] operations: the main thread has called [pthread_create]
    once for each index it has passed, and nothing went to [stderr]. *)
Record machine_inv (w : os) (n : nat) (base : proc) (m : machine) : Prop := {
  inv_threads : Forall thread_ok (m_threads m);
  inv_stderr : stderr (m_proc m) = stderr base;
  inv_calls : filter is_create (calls (m_proc m)) = create_calls w 0 (created n m);
  inv_main : match m_main m with
             | Creating i => 0 <= i <= Z.of_nat n /\ m_fault m = false
             | _ => True
             end }.

(** What a thread leaves alone when it runs. *)
Definition thread_frame (run : thread -> proc -> option (thread * proc)) : Prop :=
  forall t p, thread_ok (Some t) ->
    exists t' p', run t p = Some (t', p')
                  /\ t_op t' = t_op t
                  /\ calls p' = calls p
                  /\ stderr p' = stderr p.

(** The body of the loop of [spawn_fork]. *)
Definition fork_body (table : list operation.t) (w : os) (i : Z) : M flow :=
  r <- fork w ;;
  if r =? 0
  then op <- ops_at table i ;; atm op ;; ret Return
  else ret Next.

(** An operating system that takes the processor from the first thread
    between its load of the balance and its store, and gives it to the
    second thread meanwhile. *)
Definition racy_os : os :=
  {| fork_ret := fun k => Some (Pos.of_nat (101 + k));
     pthread_create_ret := fun k => Some (Pos.of_nat (201 + k));
     schedule := [Run_main; Run_main; Run_thread 0; Run_thread 1;
                  Run_thread 0; Run_thread 1];
     pth_dispatch := [] |}.

(** [k] steps of a thread that no other thread interrupts. *)
Fixpoint thread_steps (k : nat) (t : thread) (p : proc) : option (thread * proc) :=
  match k with
  | O => Some (t, p)
  | S k' =>
      match thread_step t p with
      | Some (t', p') => thread_steps k' t' p'
      | None => None
      end
  end.

(** The lines of a report that a list of lines holds: a report starts at
    each line of a start balance. *)
Definition is_start_line (l : line) : bool :=
  match l with Start_balance_line _ => true | _ => false end.

Definition count_reports (ls : list line) : nat :=
  List.length (filter is_start_line ls).

(** Everything the processes of a run have written, process after process.
    What reaches the terminal is an interleaving of it. *)
Definition written {A} (rs : list (outcome A * proc)) : list line :=
  flat_map (fun r => stdout (snd r)) rs.

(** ** Properties of the machine integers *)

Example atm_loop_3 : atm_loop 3 6 0 100 = (3, 118).
Proof. reflexivity. Qed.

Example nr_ops_default : nr_ops (Some ops) = Some 4.
Proof. reflexivity. Qed.

Example atol_decimal : atol "  -42"%string = -42.
Proof. reflexivity. Qed.

Example atol_prefix : atol "12abc"%string = 12.
Proof. reflexivity. Qed.

Lemma wrap_long_range z : is_long (wrap_long z).
Proof.
  unfold is_long, wrap_long, LONG_MIN, LONG_MAX.
  pose proof (Z.mod_pos_bound (z + 2 ^ 63) (2 ^ 64) ltac:(lia)). lia.
Qed.

Lemma wrap_long_small z : is_long z -> wrap_long z = z.
Proof.
  unfold is_long, wrap_long, LONG_MIN, LONG_MAX. intros H.
  rewrite Z.mod_small by lia. lia.
Qed.

Lemma wrap_long_congr x y k : x = y + k * 2 ^ 64 -> wrap_long x = wrap_long y.
Proof.
  intros ->. unfold wrap_long.
  replace (y + k * 2 ^ 64 + 2 ^ 63) with (y + 2 ^ 63 + k * 2 ^ 64) by lia.
  rewrite Z.mod_add by lia. reflexivity.
Qed.

Lemma wrap_long_decomp z : exists k, wrap_long z = z + k * 2 ^ 64.
Proof.
  unfold wrap_long. exists (- ((z + 2 ^ 63) / 2 ^ 64)).
  pose proof (Z.div_mod (z + 2 ^ 63) (2 ^ 64) ltac:(lia)). lia.
Qed.

Lemma wrap_long_add_l a b : wrap_long (wrap_long a + b) = wrap_long (a + b).
Proof.
  destruct (wrap_long_decomp a) as [k Hk]. apply (wrap_long_congr _ _ k). lia.
Qed.

Lemma wrap_long_add_r a b : wrap_long (a + wrap_long b) = wrap_long (a + b).
Proof.
  destruct (wrap_long_decomp b) as [k Hk]. apply (wrap_long_congr _ _ k). lia.
Qed.

Lemma wrap_ulong_range z : 0 <= wrap_ulong z < 2 ^ 64.
Proof. unfold wrap_ulong. apply Z.mod_pos_bound. lia. Qed.

Lemma wrap_ulong_decomp z : exists k, wrap_ulong z = z + k * 2 ^ 64.
Proof.
  unfold wrap_ulong. exists (- (z / 2 ^ 64)).
  pose proof (Z.div_mod z (2 ^ 64) ltac:(lia)). lia.
Qed.


(** ** The worker's loop in closed form *)

Lemma atm_loop_closed repeat amount i bal :
  0 <= i <= wrap_ulong repeat -> is_long bal ->
  atm_loop repeat amount i bal =
    (wrap_ulong repeat, wrap_long (bal + (wrap_ulong repeat - i) * amount)).
Proof.
  funelim (atm_loop repeat amount i bal); intros Hi Hb.
  - pose proof (wrap_ulong_range repeat) as Hr.
    assert (Hw : wrap_ulong (i + 1) = i + 1)
      by (unfold wrap_ulong; apply Z.mod_small; lia).
    rewrite H.
    + f_equal. unfold add_long. rewrite wrap_long_add_l. f_equal. rewrite Hw. lia.
    + rewrite Hw. lia.
    + apply wrap_long_range.
  - assert (i = wrap_ulong repeat) by lia. subst i.
    rewrite Z.sub_diag, Z.mul_0_l, Z.add_0_r, wrap_long_small by assumption.
    reflexivity.
Qed.

(** The balance a whole run of the loop leaves: the additions of [amount]
    are counted modulo 2^64, so the count may as well be [repeat] itself. *)
Lemma atm_loop_balance repeat amount bal :
  is_long bal ->
  snd (atm_loop repeat amount 0 bal) = wrap_long (bal + repeat * amount).
Proof.
  intros Hb. pose proof (wrap_ulong_range repeat) as Hr.
  rewrite atm_loop_closed by (assumption || lia). simpl.
  destruct (wrap_ulong_decomp repeat) as [k Hk].
  apply (wrap_long_congr _ _ (k * amount)). rewrite Hk. lia.
Qed.
(** ** Laws of the computations *)

Lemma bind_unfold {A B} (c : M A) (k : A -> M B) p :
  bind c k p = flat_map (resume k) (c p).
Proof. reflexivity. Qed.

Lemma bind_single {A B} (c : M A) (k : A -> M B) p a p' :
  c p = [(Ret a, p')] -> bind c k p = k a p'.
Proof. intros H. rewrite bind_unfold, H. simpl. apply app_nil_r. Qed.

Lemma bind_ret {A B} (a : A) (k : A -> M B) p : bind (ret a) k p = k a p.
Proof. apply bind_single. reflexivity. Qed.

Lemma bind_get {A B} (f : proc -> A) (k : A -> M B) p :
  bind (get f) k p = k (f p) p.
Proof. apply bind_single. reflexivity. Qed.

Lemma bind_modify {B} (f : proc -> proc) (k : unit -> M B) p :
  bind (modify f) k p = k tt (f p).
Proof. apply bind_single. reflexivity. Qed.

Lemma bind_ext {A B} (c : M A) (k k' : A -> M B) p :
  (forall a q, k a q = k' a q) -> bind c k p = bind c k' p.
Proof.
  intros H. rewrite !bind_unfold. apply flat_map_ext.
  intros [[a | s | ] q]; unfold resume; simpl; auto.
Qed.

Lemma bind_assoc {A B C} (c : M A) (k : A -> M B) (h : B -> M C) p :
  bind (bind c k) h p = bind c (fun a => bind (k a) h) p.
Proof.
  rewrite !bind_unfold. induction (c p) as [| [o q] l IH]; simpl.
  - reflexivity.
  - rewrite flat_map_app, IH. f_equal.
    destruct o; simpl; rewrite ?app_nil_r; reflexivity.
Qed.

(** ** Tables *)

Lemma entries_split tbl :
  terminated tbl = true ->
  exists s rest, tbl = entries tbl ++ s :: rest /\ has_name s = false.
Proof.
  induction tbl as [| op tbl IH]; simpl; [discriminate |].
  destruct (has_name op) eqn:Hn; simpl.
  - intros H. destruct (IH H) as (s & rest & Heq & Hs).
    exists s, rest. split; [congruence | assumption].
  - intros _. exists op, tbl. split; [reflexivity | assumption].
Qed.

Lemma entries_named tbl : forallb has_name (entries tbl) = true.
Proof.
  induction tbl as [| op tbl IH]; simpl; [reflexivity |].
  destruct (has_name op) eqn:Hn; simpl; [rewrite Hn; assumption | reflexivity].
Qed.

Lemma wrap_int_small z : is_int z -> wrap_int z = z.
Proof.
  unfold is_int, wrap_int, INT_MIN, INT_MAX. intros H.
  rewrite Z.mod_small by lia. lia.
Qed.

Lemma nr_ops_loop_count tbl nr :
  terminated tbl = true ->
  0 <= nr -> nr + Z.of_nat (List.length (entries tbl)) <= INT_MAX ->
  nr_ops_loop tbl nr = Some (nr + Z.of_nat (List.length (entries tbl))).
Proof.
  revert nr. induction tbl as [| op tbl IH]; simpl; intros nr Ht Hnr Hmax.
  - discriminate.
  - unfold has_name in *. destruct (operation.name op) as [n |]; simpl in *.
    + rewrite wrap_int_small by (unfold is_int, INT_MIN, INT_MAX in *; lia).
      rewrite IH by (assumption || lia). f_equal. lia.
    + f_equal. lia.
Qed.

Lemma table_ok_parts tbl :
  table_ok tbl = true ->
  terminated tbl = true /\ forallb has_account (entries tbl) = true
  /\ Z.of_nat (List.length (entries tbl)) <= INT_MAX.
Proof.
  unfold table_ok. intros H.
  apply andb_true_iff in H. destruct H as [H H3].
  apply andb_true_iff in H. destruct H as [H1 H2].
  repeat split; try assumption; apply Z.leb_le; assumption.
Qed.

Lemma nr_ops_table tbl :
  table_ok tbl = true ->
  nr_ops (Some tbl) = Some (Z.of_nat (List.length (entries tbl))).
Proof.
  intros H. destruct (table_ok_parts _ H) as (Ht & _ & Hmax).
  simpl. rewrite nr_ops_loop_count by (assumption || lia). reflexivity.
Qed.

Lemma int_range_length n : int_range (Z.of_nat n) = map Z.of_nat (seq 0 n).
Proof. unfold int_range. rewrite Nat2Z.id. reflexivity. Qed.

Section TableLoops.

Variable table : list operation.t.

Lemma ops_at_nth k op p :
  nth_error table k = Some op -> ops_at table (Z.of_nat k) p = [(Ret op, p)].
Proof.
  intros H. unfold ops_at.
  destruct (Z.ltb_spec (Z.of_nat k) 0); [lia |].
  rewrite Nat2Z.id, H. reflexivity.
Qed.

(** An index loop over a stretch of the table is the loop over the entries
    of that stretch. *)
Lemma for_each_ops body ents : forall front back p,
  table = front ++ ents ++ back ->
  for_each (map Z.of_nat (seq (List.length front) (List.length ents)))
           (fun i => op <- ops_at table i ;; body op) p
  = for_ops ents body p.
Proof.
  induction ents as [| e ents IH]; intros front back p Ht; simpl.
  - reflexivity.
  - rewrite bind_assoc.
    rewrite (bind_single (ops_at table (Z.of_nat (List.length front))) _ p e p).
    + apply bind_ext. intros [|] q; [| reflexivity].
      replace (S (List.length front)) with (List.length (front ++ [e]))
        by (rewrite length_app; simpl; lia).
      apply (IH (front ++ [e]) back). rewrite Ht, <- app_assoc. reflexivity.
    + apply ops_at_nth. rewrite Ht, nth_error_app2 by lia.
      rewrite Nat.sub_diag. reflexivity.
Qed.

End TableLoops.

(** ** The worker as the only thread of its process *)

Lemma atm_run op p :
  has_account op = true -> has_name op = true ->
  is_long (balance (global_account p)) ->
  atm op p = [(Ret tt, after_atm op p)].
Proof.
  unfold has_account, has_name, atm, after_atm, name_of.
  destruct (operation.account op) as [[] |]; [| discriminate].
  destruct (operation.name op) as [n |]; [| discriminate].
  intros _ _ Hb.
  rewrite bind_get, bind_get, bind_modify, bind_get.
  unfold getpid, gettid. rewrite bind_get, bind_get.
  rewrite atm_loop_balance by assumption. reflexivity.
Qed.

Lemma after_atm_long op p : is_long (balance (global_account (after_atm op p))).
Proof. apply wrap_long_range. Qed.

Lemma serial_loop_run ents : forall p,
  forallb has_account ents = true -> forallb has_name ents = true ->
  is_long (balance (global_account p)) ->
  for_ops ents (fun op => atm op ;; ret Next) p = [(Ret Next, after_serial ents p)].
Proof.
  induction ents as [| op ents IH]; intros p Ha Hn Hb; simpl in *.
  - reflexivity.
  - apply andb_true_iff in Ha. destruct Ha as [Ha Ha'].
    apply andb_true_iff in Hn. destruct Hn as [Hn Hn'].
    rewrite bind_assoc, (bind_single _ _ _ _ _ (atm_run op p Ha Hn Hb)).
    rewrite bind_ret. apply IH; try assumption. apply after_atm_long.
Qed.

Lemma after_serial_frame ents : forall p,
  vars (after_serial ents p) = vars p
  /\ pid (after_serial ents p) = pid p
  /\ stderr (after_serial ents p) = stderr p
  /\ calls (after_serial ents p) = calls p.
Proof.
  induction ents as [| op ents IH]; intros p; simpl.
  - repeat split.
  - destruct (IH (after_atm op p)) as (H1 & H2 & H3 & H4).
    rewrite H1, H2, H3, H4. repeat split.
Qed.

Lemma after_serial_balance ents : forall p,
  is_long (balance (global_account p)) ->
  balance (global_account (after_serial ents p))
  = wrap_long (balance (global_account p)
               + opts.repeat (vars p) * Zsum (map operation.amount ents)).
Proof.
  induction ents as [| op ents IH]; intros p Hb; simpl.
  - rewrite Z.mul_0_r, Z.add_0_r, wrap_long_small by assumption. reflexivity.
  - rewrite IH by apply after_atm_long. simpl.
    rewrite wrap_long_add_l. f_equal. lia.
Qed.

Section Serial.

Variable table : list operation.t.
Hypothesis table_good : table_ok table = true.

Lemma table_entries_ok :
  forallb has_account (entries table) = true
  /\ forallb has_name (entries table) = true
  /\ exists back, table = [] ++ entries table ++ back.
Proof.
  destruct (table_ok_parts _ table_good) as (Ht & Ha & _).
  destruct (entries_split _ Ht) as (s & rest & Heq & _).
  repeat split; [assumption | apply entries_named | exists (s :: rest); exact Heq].
Qed.

Lemma spawn_serial_run p :
  is_long (balance (global_account p)) ->
  spawn_serial table p = [(Ret tt, after_serial (entries table) p)].
Proof.
  intros Hb. destruct table_entries_ok as (Ha & Hn & back & Heq).
  unfold spawn_serial. rewrite (nr_ops_table _ table_good). simpl lift_option.
  rewrite bind_ret. unfold for_int. rewrite int_range_length.
  rewrite (bind_single _ _ p Next (after_serial (entries table) p));
    [reflexivity |].
  rewrite <- (serial_loop_run (entries table) p Ha Hn Hb).
  rewrite <- (for_each_ops table _ (entries table) [] back p Heq).
  simpl List.length. reflexivity.
Qed.

End Serial.

(** ** The options *)

Lemma clamp_long_range z : is_long (clamp_long z).
Proof. unfold is_long, clamp_long, LONG_MIN, LONG_MAX. lia. Qed.

Lemma atol_long s : is_long (atol s).
Proof.
  unfold atol. destruct (skip_spaces s) as [| c s']; [apply clamp_long_range |].
  destruct c as [[] [] [] [] [] [] [] []]; apply clamp_long_range.
Qed.

Lemma set_vars_twice v v' p : set_vars v (set_vars v' p) = set_vars v p.
Proof. reflexivity. Qed.

Lemma set_vars_same p : set_vars (vars p) p = p.
Proof. destruct p. reflexivity. Qed.

Lemma usage_run {A} p :
  @usage A p = [(Exited EXIT_FAILURE, put_stderr usage_text p)].
Proof. unfold usage. rewrite bind_modify. reflexivity. Qed.

Lemma put_stderr_twice d d' p :
  put_stderr d' (put_stderr d p) = put_stderr (d ++ d') p.
Proof. unfold put_stderr. simpl. rewrite <- app_assoc. reflexivity. Qed.

Lemma parse_opts_cons o rest p :
  parse_opts (o :: rest) p = (parse_step o ;; parse_opts rest) p.
Proof. unfold parse_step. rewrite bind_assoc. reflexivity. Qed.

(** A turn of the loop that ends in [usage]: what [getopt_long] has written
    comes first on [stderr]. *)
Lemma parse_step_usage o p :
  parse_case o = usage ->
  parse_step o p
  = [(Exited EXIT_FAILURE, put_stderr (getopt_diag o ++ usage_text) p)].
Proof.
  intros H. unfold parse_step.
  destruct o; simpl getopt_long;
    rewrite ?bind_assoc, ?bind_modify, bind_ret, H, usage_run, ?put_stderr_twice;
    reflexivity.
Qed.

Lemma parse_case_unknown_lib name :
  known_lib name = false -> parse_case (Opt_l name) = usage.
Proof.
  unfold known_lib, parse_case. intros H.
  apply orb_false_iff in H. destruct H as [H H4].
  apply orb_false_iff in H. destruct H as [H H3].
  apply orb_false_iff in H. destruct H as [H1 H2].
  rewrite H1, H2, H3, H4. reflexivity.
Qed.

Lemma parse_step_accepted o p :
  accepted o = true ->
  parse_step o p = [(Ret tt, set_vars (apply_option (vars p) o) p)].
Proof.
  unfold parse_step.
  destruct o as [| optarg | optarg | optarg | diag]; simpl accepted;
    try discriminate; intros H; simpl getopt_long; rewrite bind_ret;
    try reflexivity.
  unfold known_lib in H. unfold parse_case, apply_option, lib_of.
  destruct (String.eqb optarg "serial"); [reflexivity |].
  destruct (String.eqb optarg "fork"); [reflexivity |].
  destruct (String.eqb optarg "pthread"); [reflexivity |].
  destruct (String.eqb optarg "pth"); [reflexivity | discriminate].
Qed.

Lemma parse_step_refused o p :
  accepted o = false ->
  parse_step o p
  = [(Exited EXIT_FAILURE, put_stderr (getopt_diag o ++ usage_text) p)].
Proof.
  intros H. apply parse_step_usage.
  destruct o as [| optarg | optarg | optarg | diag]; try discriminate;
    try reflexivity.
  apply parse_case_unknown_lib. exact H.
Qed.

Lemma apply_option_long v o : vars_long v -> vars_long (apply_option v o).
Proof.
  intros [Ha Hr]. destruct o; split; simpl; try assumption; apply atol_long.
Qed.

Lemma parse_step_run o p :
  exists v, (vars_long (vars p) -> vars_long v)
            /\ parsed (parse_step o) p v (getopt_diag o).
Proof.
  destruct (accepted o) eqn:Ho.
  - exists (apply_option (vars p) o). split; [apply apply_option_long |].
    left. apply parse_step_accepted. exact Ho.
  - exists (vars p). split; [exact (fun H => H) |].
    right. rewrite set_vars_same. apply parse_step_refused. exact Ho.
Qed.

Lemma parse_opts_run argv : forall p,
  exists v d, (vars_long (vars p) -> vars_long v)
              /\ parsed (parse_opts argv) p v d.
Proof.
  induction argv as [| o argv IH]; intros p.
  - exists (vars p), []. split; [exact (fun H => H) |]. left. simpl.
    rewrite set_vars_same. reflexivity.
  - destruct (parse_step_run o p) as (v1 & Hv1 & [H1 | H1]).
    + destruct (IH (set_vars v1 p)) as (v & d & Hv & Hr).
      exists v, d. split; [exact (fun H => Hv (Hv1 H)) |].
      unfold parsed in *. rewrite parse_opts_cons.
      rewrite (bind_single _ _ _ _ _ H1). rewrite !set_vars_twice in Hr. exact Hr.
    + exists v1, (getopt_diag o). split; [assumption |]. right.
      rewrite parse_opts_cons, bind_unfold, H1. reflexivity.
Qed.

Lemma default_vars_long : vars_long default_vars.
Proof. split; unfold is_long, LONG_MIN, LONG_MAX; simpl; unfold DEFAULT_AMOUNT, DEFAULT_REPEAT; lia. Qed.

(** What normal parsing leaves of the process [main] started in. *)
Lemma parse_opts_initial argv self p :
  parse_opts argv (initial_proc self) = [(Ret tt, p)] ->
  p = set_vars (vars p) (initial_proc self) /\ vars_long (vars p).
Proof.
  intros H.
  destruct (parse_opts_run argv (initial_proc self))
    as (v & d & Hv & [Hr | Hr]); rewrite Hr in H; [| discriminate].
  injection H as <-. split; [reflexivity | exact (Hv default_vars_long)].
Qed.

(** ** The driver *)

Lemma Zsum_products ents r :
  Zsum (map (fun a => a * r) (map operation.amount ents))
  = r * Zsum (map operation.amount ents).
Proof. induction ents as [| op ents IH]; simpl; lia. Qed.

Lemma driver_report_run e p : driver_report e p = [(Ret 0, after_report e p)].
Proof.
  unfold driver_report, printf.
  rewrite bind_get, bind_modify, bind_get, bind_modify, bind_modify.
  reflexivity.
Qed.

Section Driver.

Variable table : list operation.t.
Hypothesis table_good : table_ok table = true.

Lemma expected_fold ents : forall front back e p,
  table = front ++ ents ++ back ->
  is_long e ->
  for_fold (map Z.of_nat (seq (List.length front) (List.length ents)))
           (fun i expected =>
              op <- ops_at table i ;;
              r <- get (fun q => opts.repeat (vars q)) ;;
              ret (add_long expected (mul_long (operation.amount op) r)))
           e p
  = [(Ret (wrap_long (e + Zsum (map (fun a => a * opts.repeat (vars p))
                                    (map operation.amount ents)))), p)].
Proof.
  induction ents as [| op ents IH]; intros front back e p Ht He; simpl.
  - rewrite Z.add_0_r, wrap_long_small by assumption. reflexivity.
  - rewrite bind_assoc.
    rewrite (bind_single (ops_at table (Z.of_nat (List.length front))) _ p op p).
    + rewrite bind_assoc, bind_get, bind_ret.
      replace (S (List.length front)) with (List.length (front ++ [op]))
        by (rewrite length_app; simpl; lia).
      rewrite (IH (front ++ [op]) back).
      * unfold add_long, mul_long.
        rewrite wrap_long_add_r, wrap_long_add_l, Z.add_assoc. reflexivity.
      * rewrite Ht, <- app_assoc. reflexivity.
      * apply wrap_long_range.
    + apply ops_at_nth. rewrite Ht, nth_error_app2 by lia.
      rewrite Nat.sub_diag. reflexivity.
Qed.

Lemma expected_loop_run start p :
  is_long start ->
  expected_loop table (Z.of_nat (List.length (entries table))) start p
  = [(Ret (wrap_long (start + Zsum (products table (opts.repeat (vars p))))), p)].
Proof.
  intros Hs. destruct (table_entries_ok table table_good) as (_ & _ & back & Heq).
  unfold expected_loop. rewrite int_range_length.
  apply (expected_fold (entries table) [] back start p Heq Hs).
Qed.

(** [main] up to the call of the strategy: the balance is set, [expected]
    is known, and nothing has been written or created. *)
Lemma main_run w argv self p :
  parse_opts argv (initial_proc self) = [(Ret tt, p)] ->
  main table w argv (initial_proc self)
  = (call_lib table w (opts.lib (vars p)) ;;
     driver_report (wrap_long (opts.amount (vars p)
                               + Zsum (products table (opts.repeat (vars p))))))
      (set_balance (opts.amount (vars p)) p).
Proof.
  intros Hp. destruct (parse_opts_initial _ _ _ Hp) as [_ [Ha _]].
  unfold main. rewrite (nr_ops_table _ table_good). simpl lift_option.
  rewrite bind_ret, (bind_single _ _ _ _ _ Hp), bind_get, bind_modify.
  rewrite (bind_single _ _ _ _ _ (expected_loop_run _ _ Ha)), bind_get.
  reflexivity.
Qed.

End Driver.

(** ** The fork strategy *)

Lemma flat_map_single {A B} (f : A -> B) l :
  flat_map (fun x => [f x]) l = map f l.
Proof. induction l as [| x l IH]; simpl; [| rewrite IH]; reflexivity. Qed.

Lemma resume_returned {A B} (k : A -> M B) a qs :
  flat_map (resume k) (map (fun q => (Ret a, q)) qs) = flat_map (k a) qs.
Proof.
  induction qs as [| q qs IH]; simpl; [| rewrite IH]; reflexivity.
Qed.

Lemma count_forks_log p c :
  count_forks (log_call (Call_fork c) p) = S (count_forks p).
Proof.
  unfold count_forks. simpl. rewrite filter_app, length_app. simpl. lia.
Qed.

Lemma log_calls_nil p : log_calls [] p = p.
Proof. destruct p. unfold log_calls. simpl. rewrite app_nil_r. reflexivity. Qed.

Lemma log_calls_cons c cs p : log_calls (c :: cs) p = log_calls cs (log_call c p).
Proof.
  unfold log_calls, log_call. simpl. rewrite <- app_assoc. reflexivity.
Qed.

Section Fork.

Variable table : list operation.t.
Hypothesis table_good : table_ok table = true.
Variable w : os.

Lemma fork_body_run k op p :
  nth_error table k = Some op ->
  has_account op = true -> has_name op = true ->
  is_long (balance (global_account p)) ->
  fork_body table w (Z.of_nat k) p
  = match fork_ret w (count_forks p) with
    | Some c => [(Ret Return, after_atm op (child_of p (Z.pos c)));
                 (Ret Next, log_call (Call_fork (Z.pos c)) p)]
    | None => [(Ret Next, log_call (Call_fork (-1)) p)]
    end.
Proof.
  intros Hop Ha Hn Hb. unfold fork_body. rewrite bind_unfold. unfold fork.
  destruct (fork_ret w (count_forks p)) as [c |].
  - cbn [flat_map resume fst snd app]. rewrite Z.eqb_refl.
    change (Z.pos c =? 0) with false. cbv iota.
    rewrite (bind_single _ _ _ _ _ (ops_at_nth table _ op _ Hop)).
    rewrite (bind_single _ _ _ _ _ (atm_run op (child_of p (Z.pos c)) Ha Hn Hb)).
    reflexivity.
  - cbn [flat_map resume fst snd app]. change (-1 =? 0) with false. reflexivity.
Qed.

Lemma fork_loop_run ents : forall front back p p0,
  table = front ++ ents ++ back ->
  forallb has_account ents = true -> forallb has_name ents = true ->
  is_long (balance (global_account p0)) ->
  count_forks p = List.length front ->
  (forall z, child_of p z = child_of p0 z) ->
  for_each (map Z.of_nat (seq (List.length front) (List.length ents)))
           (fork_body table w) p
  = map (fun c => (Ret Return, c)) (fork_children w p0 (List.length front) ents)
    ++ [(Ret Next, log_calls (fork_calls w (List.length front) (List.length ents)) p)].
Proof.
  induction ents as [| op ents IH]; intros front back p p0 Ht Ha Hn Hb Hk Hc.
  - simpl. rewrite log_calls_nil. reflexivity.
  - simpl in Ha, Hn.
    apply andb_true_iff in Ha. destruct Ha as [Ha Ha'].
    apply andb_true_iff in Hn. destruct Hn as [Hn Hn'].
    assert (Hop : nth_error table (List.length front) = Some op).
    { rewrite Ht, nth_error_app2 by lia. rewrite Nat.sub_diag. reflexivity. }
    assert (Hnext : forall c,
      for_each (map Z.of_nat (seq (S (List.length front)) (List.length ents)))
               (fork_body table w) (log_call (Call_fork c) p)
      = map (fun c => (Ret Return, c))
            (fork_children w p0 (S (List.length front)) ents)
        ++ [(Ret Next, log_calls (fork_calls w (S (List.length front)) (List.length ents))
                                 (log_call (Call_fork c) p))]).
    { intros c.
      replace (S (List.length front)) with (List.length (front ++ [op]))
        by (rewrite length_app; simpl; lia).
      apply (IH (front ++ [op]) back); try assumption.
      - rewrite Ht, <- app_assoc. reflexivity.
      - rewrite count_forks_log, Hk, length_app. simpl. lia. }
    assert (Hb' : is_long (balance (global_account p))).
    { replace (global_account p) with (global_account (child_of p 0)) by reflexivity.
      rewrite Hc. exact Hb. }
    cbn [List.length seq map for_each fork_children fork_calls].
    rewrite bind_unfold, (fork_body_run _ op p Hop Ha Hn Hb'), Hk.
    unfold fork_value at 1.
    destruct (fork_ret w (List.length front)) as [c |];
      cbn [flat_map resume fst snd app ret map];
      rewrite ?app_nil_r, Hnext, log_calls_cons, ?Hc; reflexivity.
Qed.

Lemma spawn_fork_run p :
  is_long (balance (global_account p)) -> count_forks p = 0%nat ->
  spawn_fork table w p
  = map (fun c => (Ret tt, c)) (fork_children w p 0 (entries table))
    ++ [(Ret tt, fork_parent w (List.length (entries table)) p)].
Proof.
  intros Hb Hk. destruct (table_entries_ok table table_good) as (Ha & Hn & back & Heq).
  unfold spawn_fork. rewrite (nr_ops_table _ table_good). simpl lift_option.
  rewrite bind_ret. unfold for_int. rewrite int_range_length.
  rewrite bind_unfold.
  pose proof (fork_loop_run (entries table) [] back p p Heq Ha Hn Hb Hk
                            (fun z => eq_refl)) as Hloop.
  cbn [List.length] in Hloop. unfold fork_body in Hloop. rewrite Hloop.
  rewrite flat_map_app, resume_returned.
  change (flat_map (ret tt)) with (flat_map (fun c : proc => [(@Ret unit tt, c)])).
  rewrite flat_map_single. reflexivity.
Qed.

End Fork.

(** ** Independence of the process id *)

Lemma parse_case_pid opt z p o q :
  parse_case opt p = [(o, q)] ->
  parse_case opt (with_pid z p) = [(o, with_pid z q)].
Proof.
  unfold parse_case. destruct opt;
  repeat match goal with
         | |- context [if ?b then _ else _] => destruct b
         end;
    rewrite ?usage_run; unfold modify; intros H; injection H as <- <-; reflexivity.
Qed.

Lemma parse_step_pid opt z p o q :
  parse_step opt p = [(o, q)] ->
  parse_step opt (with_pid z p) = [(o, with_pid z q)].
Proof.
  unfold parse_step.
  destruct opt; simpl getopt_long;
    rewrite ?bind_assoc, ?bind_modify, !bind_ret; intros H;
    apply (parse_case_pid _ z) in H; exact H.
Qed.

Lemma parse_opts_pid argv z : forall p o q,
  parse_opts argv p = [(o, q)] ->
  parse_opts argv (with_pid z p) = [(o, with_pid z q)].
Proof.
  induction argv as [| opt argv IH]; intros p o q H.
  - simpl in *. unfold ret in *. injection H as <- <-. reflexivity.
  - rewrite parse_opts_cons in *.
    destruct (parse_step_run opt p) as (v1 & _ & [H1 | H1]).
    + rewrite (bind_single _ _ _ _ _ H1) in H.
      rewrite (bind_single _ _ _ _ _ (parse_step_pid _ z _ _ _ H1)).
      apply IH. exact H.
    + rewrite bind_unfold, H1 in H. rewrite bind_unfold.
      rewrite (parse_step_pid _ z _ _ _ H1).
      cbn [flat_map resume fst snd app] in *. injection H as <- <-. reflexivity.
Qed.

Lemma initial_proc_pid self self' :
  initial_proc self' = with_pid self' (initial_proc self).
Proof. reflexivity. Qed.

(** ** The serial strategy *)

Section SerialRun.

Variable table : list operation.t.
Hypothesis table_good : table_ok table = true.

(** A run of [main] under the serial strategy. *)
Lemma main_serial_run w argv self p :
  parse_opts argv (initial_proc self) = [(Ret tt, p)] ->
  opts.lib (vars p) = fn_spawn_serial ->
  main table w argv (initial_proc self)
  = [(Ret 0,
      after_report
        (wrap_long (opts.amount (vars p) + Zsum (products table (opts.repeat (vars p)))))
        (after_serial (entries table) (set_balance (opts.amount (vars p)) p)))].
Proof.
  intros Hp Hl. destruct (parse_opts_initial _ _ _ Hp) as [_ [Ha _]].
  rewrite (main_run table table_good w argv self p Hp), Hl. simpl call_lib.
  rewrite (bind_single _ _ _ _ _
             (spawn_serial_run table table_good (set_balance _ p) Ha)).
  apply driver_report_run.
Qed.

Lemma main_serial_balance w argv self p :
  parse_opts argv (initial_proc self) = [(Ret tt, p)] ->
  opts.lib (vars p) = fn_spawn_serial ->
  exists q,
    main table w argv (initial_proc self) = [(Ret 0, q)]
    /\ balance (global_account q)
       = wrap_long (opts.amount (vars p) + opts.repeat (vars p) * Zsum (amounts table))
    /\ exists before,
         stdout q = before ++ [Start_balance_line (opts.amount (vars p));
                               End_balance_line (balance (global_account q));
                               Expected_line (balance (global_account q))].
Proof.
  intros Hp Hl. destruct (parse_opts_initial _ _ _ Hp) as [_ [Ha _]].
  eexists. split; [apply (main_serial_run w argv self p Hp Hl) |].
  destruct (after_serial_frame (entries table) (set_balance (opts.amount (vars p)) p))
    as (Hv & _).
  cbn [after_report put_stdout global_account stdout].
  rewrite Hv, after_serial_balance by exact Ha.
  unfold products, amounts. rewrite Zsum_products.
  split; [reflexivity |].
  exists (stdout (after_serial (entries table) (set_balance (opts.amount (vars p)) p))).
  rewrite <- !app_assoc. reflexivity.
Qed.

End SerialRun.

(** C1 (as amended).  Under the serial strategy, whatever the options, the
    table and the operating system, the final balance is the start balance
    plus the repeat count times the sum of the amounts, reduced to the 64
    bits of a [long]: it is that sum itself when a [long] can hold it.  The
    driver reports it as the end balance and as the expected one.  It is
    the same in every run that has the same configuration. *)
Theorem serial_final_balance table w argv self p :
  table_ok table = true ->
  parse_opts argv (initial_proc self) = [(Ret tt, p)] ->
  opts.lib (vars p) = fn_spawn_serial ->
  0 <= opts.repeat (vars p) ->
  exists q,
    main table w argv (initial_proc self) = [(Ret 0, q)]
    /\ balance (global_account q)
       = wrap_long (opts.amount (vars p) + opts.repeat (vars p) * Zsum (amounts table))
    /\ (is_long (opts.amount (vars p) + opts.repeat (vars p) * Zsum (amounts table)) ->
        balance (global_account q)
        = opts.amount (vars p) + opts.repeat (vars p) * Zsum (amounts table))
    /\ (exists before,
          stdout q = before ++ [Start_balance_line (opts.amount (vars p));
                                End_balance_line (balance (global_account q));
                                Expected_line (balance (global_account q))])
    /\ (forall w' self',
          exists q', main table w' argv (initial_proc self') = [(Ret 0, q')]
                     /\ balance (global_account q') = balance (global_account q)).
Proof.
  intros Ht Hp Hl _.
  destruct (main_serial_balance table Ht w argv self p Hp Hl) as (q & Hq & Hb & Hout).
  exists q. split; [exact Hq |]. split; [exact Hb |]. split; [| split].
  - intros Hin. rewrite Hb. apply wrap_long_small. exact Hin.
  - exact Hout.
  - intros w' self'.
    pose proof (parse_opts_pid argv self' _ _ _ Hp) as Hp'.
    rewrite <- initial_proc_pid in Hp'.
    destruct (main_serial_balance table Ht w' argv self' _ Hp' Hl)
      as (q' & Hq' & Hb' & _).
    exists q'. split; [exact Hq' |]. rewrite Hb', Hb. reflexivity.
Qed.

Lemma serial_final_balance_witness :
  table_ok ops = true
  /\ parse_opts [Opt_a "7"%string; Opt_r "3"%string] (initial_proc 1)
     = [(Ret tt, set_vars {| opts.amount := 7; opts.repeat := 3;
                             opts.lib := fn_spawn_serial |} (initial_proc 1))]
  /\ exists q,
       main ops calm_os [Opt_a "7"%string; Opt_r "3"%string] (initial_proc 1)
       = [(Ret 0, q)]
       /\ balance (global_account q) = 25.
Proof.
  split; [reflexivity |]. split; [reflexivity |].
  destruct (serial_final_balance ops calm_os
              [Opt_a "7"%string; Opt_r "3"%string] 1
              (set_vars {| opts.amount := 7; opts.repeat := 3;
                           opts.lib := fn_spawn_serial |} (initial_proc 1))
              eq_refl eq_refl eq_refl ltac:(simpl; lia)) as (q & Hq & Hb & _).
  exists q. split; [exact Hq | exact Hb].
Defined.

(** C1 (as stated) fails where a [long] cannot hold the sum: started with
    the largest [long] and repeated once, the four operations leave a
    negative balance, while the sum is 2^63 + 5, which no [long] is. *)
Lemma serial_final_balance_overflow :
  exists p q,
    parse_opts [Opt_a "9223372036854775807"%string; Opt_r "1"%string]
               (initial_proc 1) = [(Ret tt, p)]
    /\ opts.lib (vars p) = fn_spawn_serial
    /\ 0 <= opts.repeat (vars p)
    /\ main ops calm_os
            [Opt_a "9223372036854775807"%string; Opt_r "1"%string]
            (initial_proc 1) = [(Ret 0, q)]
    /\ balance (global_account q) = -9223372036854775803
    /\ opts.amount (vars p) + opts.repeat (vars p) * Zsum (amounts ops)
       = 9223372036854775813
    /\ ~ is_long 9223372036854775813.
Proof.
  eexists. eexists.
  split; [vm_compute; reflexivity |].
  split; [reflexivity |].
  split; [simpl; lia |].
  split; [vm_compute; reflexivity |].
  split; [reflexivity |]. split; [reflexivity |].
  unfold is_long, LONG_MIN, LONG_MAX. lia.
Qed.

(** C9.  [nr_ops] returns the number of entries that precede the first
    entry whose name is [NULL]: that number for every table that holds such
    an entry (as long as an [int] can hold it), 4 for the table [ops], and 0
    for the pointer [NULL]. *)
Theorem nr_ops_counts pre s post :
  forallb has_name pre = true ->
  operation.name s = None ->
  Z.of_nat (List.length pre) <= INT_MAX ->
  nr_ops (Some (pre ++ s :: post)) = Some (Z.of_nat (List.length pre))
  /\ nr_ops (Some ops) = Some 4
  /\ nr_ops None = Some 0.
Proof.
  intros Hpre Hs Hmax. split; [| split; reflexivity].
  assert (He : entries (pre ++ s :: post) = pre).
  { clear Hmax. induction pre as [| op pre IH]; simpl in *.
    - unfold has_name. rewrite Hs. reflexivity.
    - apply andb_true_iff in Hpre. destruct Hpre as [Hop Hpre].
      rewrite Hop, IH by assumption. reflexivity. }
  assert (Ht : terminated (pre ++ s :: post) = true).
  { unfold terminated. rewrite existsb_app. simpl. unfold has_name at 2.
    rewrite Hs. simpl. apply orb_true_r. }
  simpl nr_ops. rewrite nr_ops_loop_count; rewrite ?He; try assumption; try lia.
  reflexivity.
Qed.

Lemma nr_ops_counts_witness :
  forallb has_name (firstn 2 ops) = true
  /\ Z.of_nat (List.length (firstn 2 ops)) <= INT_MAX
  /\ nr_ops (Some (firstn 2 ops
                   ++ {| operation.account := None; operation.amount := 0;
                         operation.name := None |} :: firstn 1 ops))
     = Some 2.
Proof.
  split; [reflexivity |]. split; [vm_compute; discriminate |].
  apply (nr_ops_counts (firstn 2 ops)
           {| operation.account := None; operation.amount := 0;
              operation.name := None |} (firstn 1 ops));
    [reflexivity | reflexivity | vm_compute; discriminate].
Defined.



(** ** Runs of [main] under the fork strategy *)

Section ForkRun.

Variable table : list operation.t.
Hypothesis table_good : table_ok table = true.

Lemma main_fork_run w argv self p :
  parse_opts argv (initial_proc self) = [(Ret tt, p)] ->
  opts.lib (vars p) = fn_spawn_fork ->
  main table w argv (initial_proc self)
  = map (fun c =>
           (Ret 0,
            after_report
              (wrap_long (opts.amount (vars p)
                          + Zsum (products table (opts.repeat (vars p))))) c))
        (fork_children w (set_balance (opts.amount (vars p)) p) 0 (entries table))
    ++ [(Ret 0,
         after_report
           (wrap_long (opts.amount (vars p)
                       + Zsum (products table (opts.repeat (vars p)))))
           (fork_parent w (List.length (entries table))
                        (set_balance (opts.amount (vars p)) p)))].
Proof.
  intros Hp Hl. destruct (parse_opts_initial _ _ _ Hp) as [Hq [Ha _]].
  rewrite (main_run table table_good w argv self p Hp), Hl. simpl call_lib.
  rewrite bind_unfold,
    (spawn_fork_run table table_good w (set_balance (opts.amount (vars p)) p) Ha).
  - rewrite flat_map_app, resume_returned.
    cbn [flat_map resume fst snd]. rewrite app_nil_r, driver_report_run.
    f_equal.
  - rewrite Hq. reflexivity.
Qed.

Lemma fork_children_nth w p ents : forall k j op c,
  nth_error ents j = Some op ->
  fork_ret w (k + j) = Some c ->
  In (after_atm op (child_of p (Z.pos c))) (fork_children w p k ents).
Proof.
  induction ents as [| e ents IH]; intros k j op c Hj Hc.
  - destruct j; discriminate.
  - destruct j as [| j]; simpl in *.
    + injection Hj as ->. rewrite Nat.add_0_r in Hc. rewrite Hc. left. reflexivity.
    + assert (Hin : In (after_atm op (child_of p (Z.pos c)))
                       (fork_children w p (S k) ents)).
      { apply (IH (S k) j); [assumption |].
        replace (S k + j)%nat with (k + S j)%nat by lia. exact Hc. }
      destruct (fork_ret w k); [right |]; exact Hin.
Qed.

End ForkRun.

(** C6.  With the default start balance 100,000,000, the default repeat
    count 10,000,000 and the table [ops], the serial strategy ends on the
    balance 160,000,000, and under the fork strategy the driver of the
    parent reports the end balance 100,000,000. *)
Theorem default_scenario w self :
  main ops w [] (initial_proc self)
  = [(Ret 0,
      {| vars := default_vars;
         global_account := {| balance := 160000000 |};
         pid := self;
         stdout := [ATM_line "Montreal" 160000000 self self;
                    ATM_line "Paris" 120000000 self self;
                    ATM_line "Johannesburg" 190000000 self self;
                    ATM_line "Bangalore" 160000000 self self;
                    Start_balance_line 100000000;
                    End_balance_line 160000000;
                    Expected_line 160000000];
         stderr := [];
         calls := [] |})]
  /\ exists children q,
       main ops w [Opt_l "fork"%string] (initial_proc self)
       = children ++ [(Ret 0, q)]
       /\ pid q = self
       /\ balance (global_account q) = 100000000
       /\ stdout q = [Start_balance_line 100000000;
                      End_balance_line 100000000;
                      Expected_line 160000000].
Proof.
  split.
  - rewrite (main_serial_run ops eq_refl w [] self (initial_proc self) eq_refl eq_refl).
    reflexivity.
  - eexists. eexists. split.
    + apply (main_fork_run ops eq_refl w [Opt_l "fork"%string] self
               (set_lib fn_spawn_fork (initial_proc self)) eq_refl eq_refl).
    + repeat split.
Qed.

Lemma parsed_proc_fresh argv self p :
  parse_opts argv (initial_proc self) = [(Ret tt, p)] ->
  pid p = self /\ stdout p = [] /\ stderr p = [] /\ calls p = []
  /\ balance (global_account p) = 0.
Proof.
  intros Hp. destruct (parse_opts_initial _ _ _ Hp) as [Hq _].
  rewrite Hq. repeat split.
Qed.

(** C2 (as amended).  Under the fork strategy, whatever the options, the
    table and the operating system, the parent ends on the start balance and
    its driver reports it, and the child that [fork] created for an
    operation reports, from [atm], the start balance plus the repeat count
    times the amount of its operation, reduced to the 64 bits of a [long]:
    that sum itself when a [long] can hold it. *)
Theorem fork_balances table w argv self p :
  table_ok table = true ->
  parse_opts argv (initial_proc self) = [(Ret tt, p)] ->
  opts.lib (vars p) = fn_spawn_fork ->
  exists children q e,
    main table w argv (initial_proc self) = children ++ [(Ret 0, q)]
    /\ pid q = self
    /\ balance (global_account q) = opts.amount (vars p)
    /\ stdout q = [Start_balance_line (opts.amount (vars p));
                   End_balance_line (opts.amount (vars p));
                   Expected_line e]
    /\ forall k op c,
         nth_error (entries table) k = Some op ->
         fork_ret w k = Some c ->
         exists o r b,
           In (o, r) children
           /\ pid r = Z.pos c
           /\ b = wrap_long (opts.amount (vars p)
                             + opts.repeat (vars p) * operation.amount op)
           /\ (is_long (opts.amount (vars p)
                        + opts.repeat (vars p) * operation.amount op) ->
               b = opts.amount (vars p) + opts.repeat (vars p) * operation.amount op)
           /\ hd_error (stdout r) = Some (ATM_line (name_of op) b (Z.pos c) (Z.pos c)).
Proof.
  intros Ht Hp Hl.
  destruct (parsed_proc_fresh _ _ _ Hp) as (Hpid & Hout & _ & _ & _).
  eexists. eexists. eexists.
  split; [apply (main_fork_run table Ht w argv self p Hp Hl) |].
  split; [exact Hpid |]. split; [reflexivity |].
  split; [cbn; rewrite Hout; reflexivity |].
  intros k op c Hk Hc. exists (Ret 0).
  exists (after_report
            (wrap_long (opts.amount (vars p)
                        + Zsum (products table (opts.repeat (vars p)))))
            (after_atm op (child_of (set_balance (opts.amount (vars p)) p) (Z.pos c)))).
  eexists. split.
  - apply (in_map (fun c0 => (Ret 0, after_report _ c0))).
    apply (fork_children_nth w _ (entries table) 0 k op c Hk Hc).
  - split; [reflexivity |]. split; [reflexivity |]. split.
    + intros Hin. apply wrap_long_small. exact Hin.
    + cbn. rewrite Hout. reflexivity.
Qed.

Lemma fork_balances_witness :
  table_ok ops = true
  /\ parse_opts [Opt_a "7"%string; Opt_r "3"%string; Opt_l "fork"%string]
                (initial_proc 1)
     = [(Ret tt, set_vars {| opts.amount := 7; opts.repeat := 3;
                             opts.lib := fn_spawn_fork |} (initial_proc 1))]
  /\ exists children q,
       main ops calm_os
            [Opt_a "7"%string; Opt_r "3"%string; Opt_l "fork"%string]
            (initial_proc 1)
       = children ++ [(Ret 0, q)]
       /\ balance (global_account q) = 7.
Proof.
  split; [reflexivity |]. split; [reflexivity |].
  destruct (fork_balances ops calm_os
              [Opt_a "7"%string; Opt_r "3"%string; Opt_l "fork"%string] 1
              (set_vars {| opts.amount := 7; opts.repeat := 3;
                           opts.lib := fn_spawn_fork |} (initial_proc 1))
              eq_refl eq_refl eq_refl) as (children & q & e & Hq & _ & Hb & _).
  exists children, q. split; [exact Hq | exact Hb].
Defined.

(** C2 (as stated) fails where a [long] cannot hold the sum: started with
    the largest [long] and repeated once, the child of the first operation
    reports a negative balance, while the start balance plus its amount is
    2^63 + 5, which no [long] is. *)
Lemma fork_balances_overflow :
  exists p r,
    parse_opts [Opt_a "9223372036854775807"%string; Opt_r "1"%string;
                Opt_l "fork"%string] (initial_proc 1) = [(Ret tt, p)]
    /\ opts.lib (vars p) = fn_spawn_fork
    /\ fork_ret calm_os 0 = Some 101%positive
    /\ nth_error (main ops calm_os
                       [Opt_a "9223372036854775807"%string;
                        Opt_r "1"%string; Opt_l "fork"%string]
                       (initial_proc 1)) 0
       = Some (Ret 0, r)
    /\ pid r = 101
    /\ hd_error (stdout r) = Some (ATM_line "Montreal" (-9223372036854775803) 101 101)
    /\ opts.amount (vars p) + opts.repeat (vars p) * 6 = 9223372036854775813
    /\ ~ is_long 9223372036854775813.
Proof.
  eexists. eexists.
  split; [vm_compute; reflexivity |].
  split; [reflexivity |].
  split; [reflexivity |].
  split; [vm_compute; reflexivity |].
  split; [reflexivity |]. split; [reflexivity |]. split; [reflexivity |].
  unfold is_long, LONG_MIN, LONG_MAX. lia.
Qed.

(** ** What every strategy leaves to the driver *)

Lemma bind_returned {A B} (c : M A) (k : A -> M B) p b q :
  In (Ret b, q) (bind c k p) ->
  exists a q', In (Ret a, q') (c p) /\ In (Ret b, q) (k a q').
Proof.
  rewrite bind_unfold. intros H. apply in_flat_map in H.
  destruct H as ([o q'] & Hin & Hr). unfold resume in Hr. simpl in Hr.
  destruct o as [a | s |].
  - exists a, q'. split; assumption.
  - destruct Hr as [Hr | []]. discriminate.
  - destruct Hr as [Hr | []]. discriminate.
Qed.

(** C3 (as amended).  Whatever the options, the table and the strategy,
    [main] has computed [expected] when it calls the strategy, with nothing
    written and no process or thread created yet: it is the start balance
    plus the amount times the repeat count of each operation, reduced to the
    64 bits of a [long] (that sum itself when a [long] can hold it), and it
    is the last line of every process that returns from [main]. *)
Theorem expected_before_strategy table w argv self p :
  table_ok table = true ->
  parse_opts argv (initial_proc self) = [(Ret tt, p)] ->
  exists e,
    e = wrap_long (opts.amount (vars p) + Zsum (products table (opts.repeat (vars p))))
    /\ (is_long (opts.amount (vars p) + Zsum (products table (opts.repeat (vars p)))) ->
        e = opts.amount (vars p) + Zsum (products table (opts.repeat (vars p))))
    /\ main table w argv (initial_proc self)
       = (call_lib table w (opts.lib (vars p)) ;; driver_report e)
           (set_balance (opts.amount (vars p)) p)
    /\ stdout (set_balance (opts.amount (vars p)) p) = []
    /\ calls (set_balance (opts.amount (vars p)) p) = []
    /\ forall z q,
         In (Ret z, q) (main table w argv (initial_proc self)) ->
         exists before, stdout q = before ++ [Expected_line e].
Proof.
  intros Ht Hp.
  destruct (parsed_proc_fresh _ _ _ Hp) as (_ & Hout & _ & Hcalls & _).
  eexists. split; [reflexivity |]. split.
  - intros Hin. apply wrap_long_small. exact Hin.
  - split; [apply (main_run table Ht w argv self p Hp) |].
    split; [exact Hout |]. split; [exact Hcalls |].
    intros z q Hin. rewrite (main_run table Ht w argv self p Hp) in Hin.
    apply bind_returned in Hin. destruct Hin as (a & q' & _ & Hq).
    rewrite driver_report_run in Hq. destruct Hq as [Hq | []].
    injection Hq as _ <-.
    exists (stdout q' ++ [Start_balance_line (opts.amount (vars q'));
                          End_balance_line (balance (global_account q'))]).
    cbn. rewrite <- !app_assoc. reflexivity.
Qed.

Lemma expected_before_strategy_witness :
  table_ok ops = true
  /\ parse_opts [Opt_a "7"%string; Opt_r "3"%string] (initial_proc 1)
     = [(Ret tt, set_vars {| opts.amount := 7; opts.repeat := 3;
                             opts.lib := fn_spawn_serial |} (initial_proc 1))]
  /\ exists e,
       e = 25
       /\ main ops calm_os [Opt_a "7"%string; Opt_r "3"%string]
               (initial_proc 1)
          = (call_lib ops calm_os fn_spawn_serial ;; driver_report e)
              (set_balance 7
                 (set_vars {| opts.amount := 7; opts.repeat := 3;
                              opts.lib := fn_spawn_serial |} (initial_proc 1))).
Proof.
  split; [reflexivity |]. split; [reflexivity |].
  destruct (expected_before_strategy ops calm_os
              [Opt_a "7"%string; Opt_r "3"%string] 1
              (set_vars {| opts.amount := 7; opts.repeat := 3;
                           opts.lib := fn_spawn_serial |} (initial_proc 1))
              eq_refl eq_refl) as (e & He & _ & Hm & _).
  exists e. split; [exact He | exact Hm].
Defined.

(** C3 (as stated) fails where a [long] cannot hold the sum: started with
    the largest [long] and repeated once, the driver reports a negative
    expected balance, while the sum is 2^63 + 5, which no [long] is. *)
Lemma expected_overflow :
  exists p q,
    parse_opts [Opt_a "9223372036854775807"%string; Opt_r "1"%string]
               (initial_proc 1) = [(Ret tt, p)]
    /\ main ops calm_os
            [Opt_a "9223372036854775807"%string; Opt_r "1"%string]
            (initial_proc 1) = [(Ret 0, q)]
    /\ last (stdout q) (Expected_line 0) = Expected_line (-9223372036854775803)
    /\ opts.amount (vars p) + Zsum (products ops (opts.repeat (vars p)))
       = 9223372036854775813
    /\ ~ is_long 9223372036854775813.
Proof.
  eexists. eexists.
  split; [vm_compute; reflexivity |].
  split; [vm_compute; reflexivity |].
  split; [reflexivity |]. split; [reflexivity |].
  unfold is_long, LONG_MIN, LONG_MAX. lia.
Qed.

(** ** How many times the driver reports *)

Lemma count_reports_app ls ls' :
  count_reports (ls ++ ls') = (count_reports ls + count_reports ls')%nat.
Proof. unfold count_reports. rewrite filter_app, length_app. reflexivity. Qed.

Lemma after_serial_reports ents : forall p,
  count_reports (stdout (after_serial ents p)) = count_reports (stdout p).
Proof.
  induction ents as [| op ents IH]; intros p; simpl; [reflexivity |].
  rewrite IH. unfold after_atm. cbn [stdout put_stdout set_balance].
  rewrite count_reports_app. unfold count_reports at 2. simpl. lia.
Qed.

(** Under the serial strategy one process returns into [main], and the
    report of the driver is written once. *)
Lemma serial_reports_once table w argv self p :
  table_ok table = true ->
  parse_opts argv (initial_proc self) = [(Ret tt, p)] ->
  opts.lib (vars p) = fn_spawn_serial ->
  count_reports (written (main table w argv (initial_proc self))) = 1%nat.
Proof.
  intros Ht Hp Hl.
  destruct (parsed_proc_fresh _ _ _ Hp) as (_ & Hout & _).
  rewrite (main_serial_run table Ht w argv self p Hp Hl).
  unfold written. cbn [flat_map snd after_report put_stdout stdout].
  rewrite app_nil_r, !count_reports_app, after_serial_reports.
  cbn [stdout set_balance]. rewrite Hout. reflexivity.
Qed.

(** The lines reach the terminal in an order that depends on the
    operating system; the number of reports among them does not. *)
Lemma count_reports_perm ls ls' :
  Permutation ls ls' -> count_reports ls = count_reports ls'.
Proof.
  unfold count_reports. intros H. induction H as [| x l l' H IH | x y l | l l' l'' H1 IH1 H2 IH2].
  - reflexivity.
  - simpl. destruct (is_start_line x); simpl; congruence.
  - simpl. destruct (is_start_line x), (is_start_line y); reflexivity.
  - congruence.
Qed.

(** C7, at [--lib fork] with the table [ops] and an operating system that
    creates the four children: five processes return from [spawn_fork] into
    [main], the parent and each child, and each writes the report of the
    driver once, so that what the processes write holds the report five
    times, in whatever order their lines reach the terminal. *)
Theorem fork_reports_five self sink :
  Permutation sink
    (written (main ops calm_os [Opt_l "fork"%string] (initial_proc self))) ->
  List.length (main ops calm_os [Opt_l "fork"%string] (initial_proc self)) = 5%nat
  /\ Forall (fun r => fst r = Ret 0 /\ count_reports (stdout (snd r)) = 1%nat)
            (main ops calm_os [Opt_l "fork"%string] (initial_proc self))
  /\ count_reports sink = 5%nat.
Proof.
  intros Hperm.
  rewrite (main_fork_run ops eq_refl calm_os [Opt_l "fork"%string] self
             (set_lib fn_spawn_fork (initial_proc self)) eq_refl eq_refl) in *.
  split; [reflexivity |]. split.
  - repeat constructor.
  - rewrite (count_reports_perm _ _ Hperm). reflexivity.
Qed.

Lemma fork_reports_five_witness :
  Permutation
    (written (main ops calm_os [Opt_l "fork"%string] (initial_proc 1)))
    (written (main ops calm_os [Opt_l "fork"%string] (initial_proc 1)))
  /\ count_reports
       (written (main ops calm_os [Opt_l "fork"%string] (initial_proc 1)))
     = 5%nat.
Proof.
  split; [apply Permutation_refl |].
  exact (proj2 (proj2 (fork_reports_five 1 _ (Permutation_refl _)))).
Defined.

(** ** Options that end the run *)

(** Options that are all accepted are applied to [vars] from the first to
    the last; nothing else of the process changes. *)
Lemma parse_opts_accepted argv : forall p,
  forallb accepted argv = true ->
  parse_opts argv p = [(Ret tt, set_vars (fold_left apply_option argv (vars p)) p)].
Proof.
  induction argv as [| o argv IH]; intros p H.
  - simpl. rewrite set_vars_same. reflexivity.
  - simpl in H. apply andb_true_iff in H. destruct H as [Ho H].
    rewrite parse_opts_cons.
    rewrite (bind_single _ _ _ _ _ (parse_step_accepted o p Ho)).
    rewrite (IH _ H). reflexivity.
Qed.

Lemma parse_opts_app argv argv' p :
  parse_opts (argv ++ argv') p = (parse_opts argv ;; parse_opts argv') p.
Proof.
  revert p. induction argv as [| o argv IH]; intros p.
  - simpl. rewrite bind_ret. reflexivity.
  - simpl. rewrite bind_assoc. apply bind_ext. intros opt q.
    rewrite bind_assoc. apply bind_ext. intros [] q'. apply IH.
Qed.

(** The first option that is not accepted ends [parse_opts]: the options
    before it have been applied, the ones after it are not looked at. *)
Lemma parse_opts_refused pre bad rest p :
  forallb accepted pre = true ->
  accepted bad = false ->
  parse_opts (pre ++ bad :: rest) p
  = [(Exited EXIT_FAILURE,
      put_stderr (getopt_diag bad ++ usage_text)
        (set_vars (fold_left apply_option pre (vars p)) p))].
Proof.
  intros Hpre Hbad.
  rewrite parse_opts_app, (bind_single _ _ _ _ _ (parse_opts_accepted pre p Hpre)).
  rewrite parse_opts_cons, bind_unfold, (parse_step_refused _ _ Hbad). reflexivity.
Qed.

Lemma first_refused o argv :
  In o argv -> accepted o = false ->
  exists pre bad rest,
    argv = pre ++ bad :: rest /\ forallb accepted pre = true /\ accepted bad = false.
Proof.
  intros Hin Ho. induction argv as [| a argv IH]; [destruct Hin |].
  destruct (accepted a) eqn:Ha.
  - destruct Hin as [-> | Hin]; [congruence |].
    destruct (IH Hin) as (pre & bad & rest & -> & Hpre & Hbad).
    exists (a :: pre), bad, rest. simpl. rewrite Ha, Hpre. repeat split. exact Hbad.
  - exists [], a, argv. repeat split. exact Ha.
Qed.

Lemma read_digits_none s acc :
  starts_with_digit s = false -> read_digits s acc = acc.
Proof.
  destruct s as [| c s]; [reflexivity |]. unfold starts_with_digit, is_digit. simpl.
  destruct (digit_value c); [discriminate | reflexivity].
Qed.

Lemma atol_no_number s : has_number s = false -> atol s = 0.
Proof.
  unfold has_number, atol.
  destruct (skip_spaces s) as [| c s'].
  - reflexivity.
  - destruct c as [[] [] [] [] [] [] [] []];
      intros H; rewrite (read_digits_none _ _ H); reflexivity.
Qed.

(** C4 (as amended).  An unknown name of strategy ends the run in [usage],
    with the failure status, before the balance is set and before anything
    is written on the standard output or any process or thread is created:
    the run stops at the first option [parse_opts] does not accept, and
    [stderr] holds the line [getopt_long] has written itself, when that
    option is one it refuses, then the text of [usage].  A numeric argument
    is never refused: whatever its text, [parse_opts] turns it into a number
    with [atol], which is 0 when the text holds no number, and goes on with
    the next option; when every option is an accepted one, [parse_opts]
    returns with nothing written on [stderr], and [main] sets the balance,
    calls the strategy and reports. *)
Theorem unknown_lib_refused table w argv self name :
  table_ok table = true ->
  In (Opt_l name) argv ->
  known_lib name = false ->
  (exists q pre bad rest,
     main table w argv (initial_proc self) = [(Exited EXIT_FAILURE, q)]
     /\ argv = pre ++ bad :: rest
     /\ forallb accepted pre = true
     /\ accepted bad = false
     /\ stderr q = getopt_diag bad ++ usage_text
     /\ stdout q = []
     /\ calls q = []
     /\ balance (global_account q) = 0)
  /\ (forall pre s rest p p1,
        parse_opts pre p = [(Ret tt, p1)] ->
        parse_opts (pre ++ Opt_r s :: rest) p
        = parse_opts rest (set_repeat (atol s) p1)
        /\ parse_opts (pre ++ Opt_a s :: rest) p
           = parse_opts rest (set_amount (atol s) p1))
  /\ (forall s, has_number s = false -> atol s = 0)
  /\ (forall s, accepted (Opt_r s) = true /\ accepted (Opt_a s) = true)
  /\ (forall argv',
        forallb accepted argv' = true ->
        exists p,
          parse_opts argv' (initial_proc self) = [(Ret tt, p)]
          /\ vars p = fold_left apply_option argv' default_vars
          /\ stderr p = []
          /\ main table w argv' (initial_proc self)
             = (call_lib table w (opts.lib (vars p)) ;;
                driver_report (wrap_long (opts.amount (vars p)
                                          + Zsum (products table (opts.repeat (vars p))))))
                 (set_balance (opts.amount (vars p)) p)).
Proof.
  intros Ht Hin Hk. split; [| split; [| split; [| split]]].
  - destruct (first_refused (Opt_l name) argv Hin Hk)
      as (pre & bad & rest & Heq & Hpre & Hbad).
    eexists. exists pre, bad, rest. split.
    + unfold main. rewrite (nr_ops_table _ Ht). simpl lift_option.
      rewrite bind_ret, bind_unfold, Heq, (parse_opts_refused _ _ _ _ Hpre Hbad).
      reflexivity.
    + repeat split; assumption.
  - intros pre s rest p p1 Hp. split.
    + rewrite parse_opts_app, (bind_single _ _ _ _ _ Hp), parse_opts_cons.
      rewrite (bind_single _ _ _ _ _ (parse_step_accepted (Opt_r s) p1 eq_refl)).
      reflexivity.
    + rewrite parse_opts_app, (bind_single _ _ _ _ _ Hp), parse_opts_cons.
      rewrite (bind_single _ _ _ _ _ (parse_step_accepted (Opt_a s) p1 eq_refl)).
      reflexivity.
  - exact atol_no_number.
  - intros s. split; reflexivity.
  - intros argv' Hacc.
    pose proof (parse_opts_accepted argv' (initial_proc self) Hacc) as Hp.
    eexists. split; [exact Hp |]. split; [reflexivity |]. split; [reflexivity |].
    apply (main_run table Ht w argv' self _ Hp).
Qed.

Lemma unknown_lib_refused_witness :
  table_ok ops = true
  /\ In (Opt_l "pthreads"%string)
        [Opt_r "5"%string; Opt_error "banque: invalid option -- 'x'"%string;
         Opt_l "pthreads"%string]
  /\ known_lib "pthreads" = false
  /\ exists q,
       main ops calm_os
            [Opt_r "5"%string; Opt_error "banque: invalid option -- 'x'"%string;
             Opt_l "pthreads"%string]
            (initial_proc 1)
       = [(Exited EXIT_FAILURE, q)]
       /\ stdout q = []
       /\ calls q = [].
Proof.
  assert (Hin : In (Opt_l "pthreads"%string)
                   [Opt_r "5"%string; Opt_error "banque: invalid option -- 'x'"%string;
                    Opt_l "pthreads"%string])
    by (right; right; left; reflexivity).
  split; [reflexivity |]. split; [exact Hin |]. split; [reflexivity |].
  destruct (unknown_lib_refused ops calm_os
              [Opt_r "5"%string; Opt_error "banque: invalid option -- 'x'"%string;
               Opt_l "pthreads"%string] 1
              "pthreads" eq_refl Hin eq_refl)
    as [(q & pre & bad & rest & Hq & _ & _ & _ & _ & Hout & Hcalls & _) _].
  exists q. split; [exact Hq |]. split; [exact Hout | exact Hcalls].
Defined.

(** C4 (as stated) fails on a numeric argument that is no number: with
    [--repeat abc] the run is not ended; [repeat] is 0, the serial strategy
    runs its four workers and the driver reports. *)
Lemma malformed_number_accepted :
  atol "abc" = 0
  /\ main ops calm_os [Opt_r "abc"%string] (initial_proc 1)
     = [(Ret 0,
         {| vars := {| opts.amount := 100000000; opts.repeat := 0;
                       opts.lib := fn_spawn_serial |};
            global_account := {| balance := 100000000 |};
            pid := 1;
            stdout := [ATM_line "Montreal" 100000000 1 1;
                       ATM_line "Paris" 100000000 1 1;
                       ATM_line "Johannesburg" 100000000 1 1;
                       ATM_line "Bangalore" 100000000 1 1;
                       Start_balance_line 100000000;
                       End_balance_line 100000000;
                       Expected_line 100000000];
            stderr := [];
            calls := [] |})].
Proof. split; vm_compute; reflexivity. Qed.

(** With [banque -x --lib bogus], [getopt_long] refuses [-x]: its line
    comes first on [stderr], the text of [usage] follows, and the unknown
    name of strategy is never looked at. *)
Example invalid_option_diagnostic :
  main ops calm_os
       [Opt_error "banque: invalid option -- 'x'"%string; Opt_l "bogus"%string]
       (initial_proc 1)
  = [(Exited EXIT_FAILURE,
      {| vars := default_vars;
         global_account := {| balance := 0 |};
         pid := 1;
         stdout := [];
         stderr := "banque: invalid option -- 'x'"%string :: usage_text;
         calls := [] |})].
Proof. vm_compute. reflexivity. Qed.

(** A request for help ends the run in [usage] as well, with the text of
    [usage] alone on [stderr]. *)
Example help_requested :
  main ops calm_os [Opt_a "7"%string; Opt_h; Opt_l "fork"%string] (initial_proc 1)
  = [(Exited EXIT_FAILURE,
      {| vars := {| opts.amount := 7; opts.repeat := DEFAULT_REPEAT;
                    opts.lib := fn_spawn_serial |};
         global_account := {| balance := 0 |};
         pid := 1;
         stdout := [];
         stderr := usage_text;
         calls := [] |})].
Proof. vm_compute. reflexivity. Qed.

(** ** The threads of [spawn_pthread] *)

Lemma Forall_firstn {A} (P : A -> Prop) l : forall k,
  Forall P l -> Forall P (firstn k l).
Proof.
  induction l as [| x l IH]; intros [| k] H; simpl; try constructor.
  - inversion H; assumption.
  - apply IH. inversion H; assumption.
Qed.

Lemma Forall_skipn {A} (P : A -> Prop) l : forall k,
  Forall P l -> Forall P (skipn k l).
Proof.
  induction l as [| x l IH]; intros [| k] H; simpl; try assumption.
  apply IH. inversion H; assumption.
Qed.

Lemma Forall_nth_error {A} (P : A -> Prop) l : forall k x,
  Forall P l -> nth_error l k = Some x -> P x.
Proof.
  induction l as [| y l IH]; intros [| k] x H Hk; simpl in Hk; try discriminate.
  - injection Hk as <-. inversion H; assumption.
  - apply (IH k); [inversion H |]; assumption.
Qed.

Lemma thread_step_frame : thread_frame thread_step.
Proof.
  intros t p [Ha Hn]. unfold thread_step, has_account, has_name in *.
  destruct (operation.account (t_op t)) as [[] |]; [| discriminate].
  destruct (operation.name (t_op t)) as [n |]; [| discriminate].
  destruct (t_pc t) as [i | i tmp | |].
  - destruct (i <? wrap_ulong (opts.repeat (vars p)));
      eexists; eexists; repeat split.
  - eexists; eexists; repeat split.
  - eexists; eexists; repeat split.
  - eexists; eexists; repeat split.
Qed.

Lemma thread_finish_frame : thread_frame thread_finish.
Proof.
  intros t p [Ha Hn]. unfold thread_finish, has_account, has_name in *.
  destruct (operation.account (t_op t)) as [[] |]; [| discriminate].
  destruct (operation.name (t_op t)) as [n |]; [| discriminate].
  destruct (t_pc t) as [i | i tmp | |]; eexists; eexists; repeat split.
Qed.

Lemma create_calls_succ w k :
  create_calls w 0 (S k)
  = create_calls w 0 k ++ [Call_pthread_create (create_value w k)].
Proof. unfold create_calls. rewrite seq_S, map_app. reflexivity. Qed.

Section Pthread.

Variable table : list operation.t.
Hypothesis table_good : table_ok table = true.
Variable w : os.
Variable base : proc.

Variable n : nat.
Hypothesis n_def : n = List.length (entries table).
Variable max : Z.
Hypothesis max_def : max = Z.of_nat n.

Lemma table_entry k :
  (k < n)%nat ->
  exists op, nth_error table k = Some op
             /\ has_account op = true /\ has_name op = true.
Proof.
  intros Hk. destruct (table_entries_ok table table_good) as (Ha & Hn & back & Heq).
  destruct (nth_error (entries table) k) as [op |] eqn:Hop.
  - exists op. split.
    + rewrite Heq. simpl. rewrite nth_error_app1 by lia. exact Hop.
    + rewrite forallb_forall in Ha, Hn.
      split; [apply Ha | apply Hn]; apply (nth_error_In _ _ Hop).
  - apply nth_error_None in Hop. lia.
Qed.

Lemma main_step_inv m :
  machine_inv w n base m -> machine_inv w n base (main_step table w max m).
Proof.
  intros Hinv. unfold main_step.
  destruct (m_fault m) eqn:Hf; [exact Hinv |].
  destruct Hinv as [Ht He Hc Hm]. unfold created in Hc.
  destruct (m_main m) as [i | i |] eqn:Hmain.
  - destruct Hm as [Hi _].
    destruct (Z.ltb_spec i max) as [Hlt | Hge].
    + destruct (table_entry (Z.to_nat i)) as (op & Hop & Ha & Hn);
        [lia |].
      rewrite Hop.
      assert (Hs : Z.to_nat (i + 1) = S (Z.to_nat i)) by lia.
      destruct (pthread_create_ret w (Z.to_nat i)) as [id |] eqn:Hid;
        (constructor; cbn [m_proc m_threads m_main m_fault log_call calls stderr];
         [ apply Forall_app; split; [exact Ht | repeat constructor; assumption]
         | exact He
         | unfold created; cbn [m_main]; rewrite Hs, create_calls_succ, filter_app, Hc;
           unfold create_value; rewrite Hid; reflexivity
         | split; [lia | reflexivity] ]).
    + constructor; cbn [m_proc m_threads m_main m_fault].
      * exact Ht.
      * exact He.
      * unfold created. cbn [m_main]. rewrite Hc. f_equal. lia.
      * exact I.
  - assert (Hsame : machine_inv w n base m).
    { constructor; unfold created; rewrite ?Hmain; assumption. }
    destruct (i <? max).
    + destruct (nth_error (m_threads m) (Z.to_nat i)) as [[t |] |].
      * destruct (t_pc t); try exact Hsame.
        constructor; cbn [m_proc m_threads m_main m_fault log_call calls stderr].
        -- exact Ht.
        -- exact He.
        -- unfold created. cbn [m_main]. rewrite filter_app, Hc. simpl.
           apply app_nil_r.
        -- exact I.
      * constructor; cbn [m_proc m_threads m_main m_fault]; unfold created;
          rewrite ?Hmain; assumption.
      * constructor; cbn [m_proc m_threads m_main m_fault]; unfold created;
          rewrite ?Hmain; assumption.
    + constructor; cbn [m_proc m_threads m_main m_fault]; unfold created;
        cbn [m_main]; assumption.
  - constructor; unfold created; rewrite ?Hmain; assumption.
Qed.

Lemma run_thread_inv run k m :
  thread_frame run ->
  machine_inv w n base m -> machine_inv w n base (run_thread run k m).
Proof.
  intros Hrun Hinv. unfold run_thread.
  destruct (m_fault m) eqn:Hf; [exact Hinv |].
  destruct (nth_error (m_threads m) k) as [[t |] |] eqn:Hk; try exact Hinv.
  destruct Hinv as [Ht He Hc Hm].
  assert (Hok : thread_ok (Some t)) by exact (Forall_nth_error _ _ _ _ Ht Hk).
  destruct (Hrun t (m_proc m) Hok) as (t' & p' & -> & Hop & Hcalls & Herr).
  constructor; cbn [m_proc m_threads m_main m_fault].
  - apply Forall_app. split; [apply Forall_firstn; exact Ht |].
    constructor; [| apply Forall_skipn; exact Ht].
    simpl. rewrite Hop. exact Hok.
  - rewrite Herr. exact He.
  - unfold created in *. cbn [m_main]. rewrite Hcalls. exact Hc.
  - destruct (m_main m); [split; [apply Hm | reflexivity] | exact I | exact I].
Qed.

Lemma run_thread_main run k m : m_main (run_thread run k m) = m_main m.
Proof.
  unfold run_thread. destruct (m_fault m); [reflexivity |].
  destruct (nth_error (m_threads m) k) as [[t |] |]; try reflexivity.
  destruct (run t (m_proc m)) as [[t' p'] |]; reflexivity.
Qed.

Lemma main_step_past m : past_creation m -> past_creation (main_step table w max m).
Proof.
  unfold past_creation, main_step. destruct (m_fault m); [exact (fun H => H) |].
  destruct (m_main m) as [i | i |] eqn:Hmain; intros H; [destruct H | |].
  - destruct (i <? max); [| exact I].
    destruct (nth_error (m_threads m) (Z.to_nat i)) as [[t |] |];
      cbn [m_main]; rewrite ?Hmain; try exact I.
    destruct (t_pc t); cbn [m_main]; rewrite ?Hmain; exact I.
  - rewrite Hmain. exact I.
Qed.

Lemma main_steps_past k : forall m,
  past_creation m -> past_creation (Nat.iter k (main_step table w max) m).
Proof.
  induction k as [| k IH]; intros m H; [exact H |].
  rewrite Nat.iter_succ. apply main_step_past, IH, H.
Qed.

Lemma main_steps_inv k : forall m,
  machine_inv w n base m -> machine_inv w n base (Nat.iter k (main_step table w max) m).
Proof.
  induction k as [| k IH]; intros m H; [exact H |].
  rewrite Nat.iter_succ. apply main_step_inv, IH, H.
Qed.

(** The first loop of the main thread ends: enough steps of the main thread
    take it past its last call of [pthread_create]. *)
Lemma main_steps_create k : forall m,
  machine_inv w n base m ->
  (created n m + k > n)%nat ->
  past_creation (Nat.iter k (main_step table w max) m).
Proof.
  induction k as [| k IH]; intros m Hinv Hk.
  - simpl. unfold created, past_creation in *.
    pose proof (inv_main _ _ _ _ Hinv) as Hm.
    destruct (m_main m) as [i | |]; try exact I.
    destruct Hm as [Hi _]. lia.
  - rewrite Nat.iter_succ_r.
    destruct (m_main m) as [i | i |] eqn:Hmain.
    + pose proof (inv_main _ _ _ _ Hinv) as Hm. rewrite Hmain in Hm.
      destruct Hm as [Hi Hf].
      unfold created in Hk. rewrite Hmain in Hk.
      destruct (Z.ltb_spec i max) as [Hlt | Hge].
      * apply IH; [apply main_step_inv; exact Hinv |]. clear IH.
        unfold created, main_step. rewrite Hf, Hmain.
        assert (Hs : (Z.to_nat (i + 1) + k > n)%nat) by lia.
        destruct (i <? max) eqn:Hb; [| apply Z.ltb_ge in Hb; lia].
        destruct (table_entry (Z.to_nat i)) as (op & Hop & _);
          [lia |].
        rewrite Hop. destruct (pthread_create_ret w (Z.to_nat i));
          cbn [m_main]; exact Hs.
      * apply main_steps_past. unfold past_creation, main_step.
        rewrite Hf, Hmain.
        destruct (i <? max) eqn:Hb; [apply Z.ltb_lt in Hb; lia | exact I].
    + apply main_steps_past, main_step_past. unfold past_creation.
      rewrite Hmain. exact I.
    + apply main_steps_past, main_step_past. unfold past_creation.
      rewrite Hmain. exact I.
Qed.

Lemma schedule_inv evs : forall m,
  machine_inv w n base m ->
  machine_inv w n base (fold_left (sched_step table w max) evs m).
Proof.
  induction evs as [| e evs IH]; intros m H; [exact H |].
  simpl. apply IH. destruct e as [| k]; simpl.
  - apply main_step_inv, H.
  - apply run_thread_inv; [apply thread_step_frame | exact H].
Qed.

Lemma finish_inv ks : forall m,
  machine_inv w n base m ->
  machine_inv w n base (fold_left (fun m' k => run_thread thread_finish k m') ks m).
Proof.
  induction ks as [| k ks IH]; intros m H; [exact H |].
  simpl. apply IH, run_thread_inv; [apply thread_finish_frame | exact H].
Qed.

Lemma finish_main ks : forall m,
  m_main (fold_left (fun m' k => run_thread thread_finish k m') ks m) = m_main m.
Proof.
  induction ks as [| k ks IH]; intros m; [reflexivity |].
  simpl. rewrite IH. apply run_thread_main.
Qed.

Lemma drain_inv m :
  machine_inv w n base m ->
  machine_inv w n base (drain table w max m) /\ past_creation (drain table w max m).
Proof.
  intros H. unfold drain. split.
  - apply main_steps_inv, finish_inv, main_steps_inv, H.
  - apply main_steps_past. unfold past_creation. rewrite finish_main.
    apply main_steps_create; [exact H |]. rewrite max_def, Nat2Z.id. lia.
Qed.

(** [spawn_pthread] ends in the one process it started in, where it has
    called [pthread_create] once for each operation, whatever the calls
    returned, and written nothing to [stderr]. *)
Lemma spawn_pthread_run p :
  base = p ->
  filter is_create (calls p) = [] ->
  exists o q,
    spawn_pthread table w p = [(o, q)]
    /\ filter is_create (calls q) = create_calls w 0 n
    /\ stderr q = stderr p.
Proof.
  intros Hbase Hcalls. unfold spawn_pthread.
  rewrite (nr_ops_table _ table_good), <- n_def, <- max_def.
  set (m0 := {| m_proc := p; m_threads := []; m_main := Creating 0;
                m_fault := false |}).
  assert (H0 : machine_inv w n base m0).
  { constructor; cbn.
    - constructor.
    - rewrite Hbase. reflexivity.
    - exact Hcalls.
    - split; [lia | reflexivity]. }
  destruct (drain_inv _ (schedule_inv (schedule w) m0 H0)) as [Hinv Hpast].
  eexists. eexists. split; [reflexivity |]. split.
  - rewrite (inv_calls _ _ _ _ Hinv). unfold created, past_creation in *.
    destruct (m_main (drain table w max (fold_left (sched_step table w max) (schedule w) m0)));
      [destruct Hpast | reflexivity | reflexivity].
  - rewrite (inv_stderr _ _ _ _ Hinv), Hbase. reflexivity.
Qed.

End Pthread.

(** C5 (as amended).  A call of [fork] or of [pthread_create] that fails is
    not tried again, and it is not fatal either: whatever these calls
    return, the strategy makes one call for each operation.  Under the fork
    strategy the parent then waits, writes nothing to [stderr], and its
    driver reports and returns 0. *)
Theorem creation_failure_not_fatal table w argv self p :
  table_ok table = true ->
  parse_opts argv (initial_proc self) = [(Ret tt, p)] ->
  (opts.lib (vars p) = fn_spawn_fork ->
   exists children q e,
     main table w argv (initial_proc self) = children ++ [(Ret 0, q)]
     /\ calls q = fork_calls w 0 (List.length (entries table)) ++ [Call_wait]
     /\ stderr q = []
     /\ stdout q = [Start_balance_line (opts.amount (vars p));
                    End_balance_line (opts.amount (vars p));
                    Expected_line e])
  /\ (opts.lib (vars p) = fn_spawn_pthread ->
      exists o q,
        main table w argv (initial_proc self) = [(o, q)]
        /\ filter is_create (calls q)
           = create_calls w 0 (List.length (entries table))
        /\ stderr q = []).
Proof.
  intros Ht Hp.
  destruct (parsed_proc_fresh _ _ _ Hp) as (_ & Hout & Herr & Hcalls & _).
  split; intros Hl.
  - eexists. eexists. eexists.
    split; [apply (main_fork_run table Ht w argv self p Hp Hl) |].
    cbn. rewrite Hout, Herr, Hcalls. repeat split.
  - rewrite (main_run table Ht w argv self p Hp), Hl. simpl call_lib.
    destruct (spawn_pthread_run table Ht w _ _ eq_refl _ eq_refl
                (set_balance (opts.amount (vars p)) p) eq_refl)
      as (o & q & Hq & Hc & He).
    { cbn. rewrite Hcalls. reflexivity. }
    rewrite bind_unfold, Hq. cbn in He. rewrite Herr in He.
    destruct o as [[] | s |]; cbn [flat_map resume fst snd];
      rewrite app_nil_r, ?driver_report_run;
      eexists; eexists; (split; [reflexivity |]); split; assumption.
Qed.

Lemma creation_failure_not_fatal_witness :
  table_ok ops = true
  /\ parse_opts [Opt_l "fork"%string] (initial_proc 1)
     = [(Ret tt, set_lib fn_spawn_fork (initial_proc 1))]
  /\ exists children q,
       main ops short_os [Opt_l "fork"%string] (initial_proc 1)
       = children ++ [(Ret 0, q)]
       /\ calls q = [Call_fork 101; Call_fork (-1); Call_fork 103; Call_fork 104;
                     Call_wait].
Proof.
  split; [reflexivity |]. split; [reflexivity |].
  destruct (creation_failure_not_fatal ops short_os [Opt_l "fork"%string] 1
              (set_lib fn_spawn_fork (initial_proc 1)) eq_refl eq_refl)
    as [Hfork _].
  destruct (Hfork eq_refl) as (children & q & e & Hq & Hc & _).
  exists children, q. split; [exact Hq | exact Hc].
Defined.

(** C5 (as stated) fails: when the second call of [fork] fails, the parent
    goes on to the third and the fourth operation, waits, reports and
    returns 0, and nothing tells of the failure. *)
Lemma fork_failure_ignored :
  fork_ret short_os 1 = None
  /\ exists children,
       main ops short_os [Opt_l "fork"%string] (initial_proc 1)
       = children ++
         [(Ret 0,
           {| vars := {| opts.amount := 100000000; opts.repeat := 10000000;
                         opts.lib := fn_spawn_fork |};
              global_account := {| balance := 100000000 |};
              pid := 1;
              stdout := [Start_balance_line 100000000;
                         End_balance_line 100000000;
                         Expected_line 160000000];
              stderr := [];
              calls := [Call_fork 101; Call_fork (-1); Call_fork 103;
                        Call_fork 104; Call_wait] |})]
       /\ map (fun r => pid (snd r)) children = [101; 103; 104].
Proof.
  split; [reflexivity |].
  eexists. split.
  - apply (main_fork_run ops eq_refl short_os [Opt_l "fork"%string] 1
             (set_lib fn_spawn_fork (initial_proc 1)) eq_refl eq_refl).
  - reflexivity.
Qed.

(** The same with threads: when the second call of [pthread_create] fails,
    the main thread still creates the third and the fourth thread. *)
Example pthread_failure_ignored :
  exists o q,
    main ops short_os [Opt_r "3"%string; Opt_l "pthread"%string]
         (initial_proc 1) = [(o, q)]
    /\ filter is_create (calls q)
       = [Call_pthread_create 0; Call_pthread_create EAGAIN;
          Call_pthread_create 0; Call_pthread_create 0]
    /\ stderr q = [].
Proof. eexists. eexists. split; [vm_compute; reflexivity |]. split; reflexivity. Qed.

(** ** A thread that is not interrupted *)

Lemma set_balance_same p : set_balance (balance (global_account p)) p = p.
Proof. destruct p as [v [b] i o e c]. reflexivity. Qed.

(** Step by step, a thread that keeps the processor from a test of its
    counter on does what [thread_finish] says in one go. *)
Lemma thread_steps_finish k : forall t p i,
  thread_ok (Some t) ->
  t_pc t = At_test i ->
  0 <= i ->
  i + Z.of_nat k = wrap_ulong (opts.repeat (vars p)) ->
  is_long (balance (global_account p)) ->
  thread_steps (2 * k + 2) t p = thread_finish t p.
Proof.
  induction k as [| k IH]; intros t p i [Ha Hn] Hpc Hi Hk Hb.
  - unfold thread_finish. simpl thread_steps. unfold thread_step at 1.
    unfold has_account, has_name in *. rewrite Hpc.
    destruct (Z.ltb_spec i (wrap_ulong (opts.repeat (vars p)))); [lia |].
    unfold thread_step. cbn [t_pc t_op set_pc t_tid].
    destruct (operation.account (t_op t)) as [[] |]; [| discriminate].
    destruct (operation.name (t_op t)) as [nm |]; [| discriminate].
    rewrite atm_loop_closed by (assumption || lia). cbn [snd].
    replace (wrap_ulong (opts.repeat (vars p)) - i) with 0 by lia.
    rewrite Z.mul_0_l, Z.add_0_r, wrap_long_small by assumption.
    rewrite set_balance_same. reflexivity.
  - replace (2 * S k + 2)%nat with (S (S (2 * k + 2))) by lia.
    pose proof (wrap_ulong_range (opts.repeat (vars p))) as Hr.
    assert (Hw : wrap_ulong (i + 1) = i + 1)
      by (unfold wrap_ulong; apply Z.mod_small; lia).
    cbn [thread_steps]. unfold thread_step at 1. rewrite Hpc.
    destruct (Z.ltb_spec i (wrap_ulong (opts.repeat (vars p)))); [| lia].
    pose proof Ha as Ha'. unfold has_account in Ha'.
    destruct (operation.account (t_op t)) as [[] |] eqn:Hacc; [| discriminate].
    unfold thread_step at 1. cbn [t_pc t_op set_pc t_tid].
    rewrite (IH _ _ (i + 1)); cbn [t_pc t_op set_pc t_tid vars set_balance];
      try (rewrite ?Hw; lia || reflexivity).
    + unfold thread_finish. cbn [t_pc t_op set_pc t_tid vars set_balance].
      rewrite Hpc, Hw, Hacc.
      destruct (operation.name (t_op t)) as [nm |]; [| reflexivity].
      cbn [global_account balance pid].
      rewrite !atm_loop_closed by (try apply wrap_long_range; assumption || lia).
      cbn [snd].
      change (balance (global_account
                (set_balance (add_long (balance (global_account p))
                                       (operation.amount (t_op t))) p)))
        with (add_long (balance (global_account p)) (operation.amount (t_op t))).
      unfold add_long. rewrite wrap_long_add_l.
      replace (balance (global_account p) + operation.amount (t_op t)
               + (wrap_ulong (opts.repeat (vars p)) - (i + 1)) * operation.amount (t_op t))
        with (balance (global_account p)
              + (wrap_ulong (opts.repeat (vars p)) - i) * operation.amount (t_op t))
        by lia.
      reflexivity.
    + split; assumption.
    + apply wrap_long_range.
Qed.

(** A thread that runs [atm] without being interrupted leaves what [atm]
    leaves when it is called in the main thread, under its own thread id. *)
Lemma thread_finish_atm t p :
  thread_ok (Some t) ->
  t_pc t = At_test 0 ->
  is_long (balance (global_account p)) ->
  thread_finish t p
  = Some (set_pc Finished t,
          put_stdout
            (ATM_line (name_of (t_op t))
                      (balance (global_account (after_atm (t_op t) p)))
                      (pid p) (t_tid t))
            (set_balance (balance (global_account (after_atm (t_op t) p))) p)).
Proof.
  intros [Ha Hn] Hpc Hb. unfold thread_finish, name_of, has_account, has_name in *.
  rewrite Hpc.
  destruct (operation.account (t_op t)) as [[] |]; [| discriminate].
  destruct (operation.name (t_op t)) as [nm |]; [| discriminate].
  rewrite atm_loop_balance by assumption. reflexivity.
Qed.

(** Two threads that interleave their loads and stores lose an update: with
    one repetition from the balance 100, the addition of 6 by the first
    thread is overwritten by the second, and the run ends on 100 where 106
    is expected; when each thread runs in turn, it ends on 106. *)
Example pthread_lost_update :
  (exists q,
     main ops racy_os
          [Opt_a "100"%string; Opt_r "1"%string;
           Opt_l "pthread"%string] (initial_proc 1) = [(Ret 0, q)]
     /\ balance (global_account q) = 100
     /\ last (stdout q) (Expected_line 0) = Expected_line 106)
  /\ (exists q,
        main ops calm_os
             [Opt_a "100"%string; Opt_r "1"%string;
              Opt_l "pthread"%string] (initial_proc 1) = [(Ret 0, q)]
        /\ balance (global_account q) = 106
        /\ last (stdout q) (Expected_line 0) = Expected_line 106).
Proof.
  split; eexists; (split; [vm_compute; reflexivity |]); split; reflexivity.
Qed.
